(** * scrobble-me-this: a shallow embedding of [index.mjs]

    The program authenticates against Last.fm, reads a CSV of
    (artist, track) rows and submits every row as a scrobble.  This file
    embeds the signature engine ([md5], [createSignature]), the service
    client ([lastFmRequest], [getAuthToken], [scrobbleTrack]), the row
    resolver and the top-level script with its scrobble loop, and proves
    the properties the specification states about them.

    Conventions.  A JavaScript string is a Rocq [string] holding its UTF-8
    bytes (what [hash.update(str)] feeds to the digest).  JavaScript numbers
    that occur in the program are integers far below 2^53 and are modelled
    by [Z] / [nat].  Everything the script does to the outside world is an
    [event]; everything the outside world answers is a field of [world]. *)

From Stdlib Require Import ZArith String Ascii List Sorted Permutation Lia Bool.
From stdpp Require Import base list strings sorting pretty.
Import ListNotations.

Local Open Scope string_scope.
Local Open Scope list_scope.
Local Open Scope Z_scope.

(* ===================================================================== *)
(** * The MD5 digest (node:crypto [createHash("md5")], RFC 1321)          *)
(* ===================================================================== *)

Module MD5.

(** 32-bit words are [Z] with the wrap-around written out. *)
Definition wrap (x : Z) : Z := x mod 2 ^ 32.
Definition add32 (x y : Z) : Z := wrap (x + y).
Definition not32 (x : Z) : Z := Z.lxor x 0xffffffff.
Definition rotl32 (x : Z) (n : Z) : Z :=
  Z.lor (wrap (Z.shiftl x n)) (Z.shiftr x (32 - n)).

(** Per-round shift amounts. *)
Definition S : list Z :=
  [ 7; 12; 17; 22; 7; 12; 17; 22; 7; 12; 17; 22; 7; 12; 17; 22;
    5;  9; 14; 20; 5;  9; 14; 20; 5;  9; 14; 20; 5;  9; 14; 20;
    4; 11; 16; 23; 4; 11; 16; 23; 4; 11; 16; 23; 4; 11; 16; 23;
    6; 10; 15; 21; 6; 10; 15; 21; 6; 10; 15; 21; 6; 10; 15; 21 ].

(** [K[i] = floor(2^32 * |sin(i + 1)|)]. *)
Definition K : list Z :=
  [ 0xd76aa478; 0xe8c7b756; 0x242070db; 0xc1bdceee;
    0xf57c0faf; 0x4787c62a; 0xa8304613; 0xfd469501;
    0x698098d8; 0x8b44f7af; 0xffff5bb1; 0x895cd7be;
    0x6b901122; 0xfd987193; 0xa679438e; 0x49b40821;
    0xf61e2562; 0xc040b340; 0x265e5a51; 0xe9b6c7aa;
    0xd62f105d; 0x02441453; 0xd8a1e681; 0xe7d3fbc8;
    0x21e1cde6; 0xc33707d6; 0xf4d50d87; 0x455a14ed;
    0xa9e3e905; 0xfcefa3f8; 0x676f02d9; 0x8d2a4c8a;
    0xfffa3942; 0x8771f681; 0x6d9d6122; 0xfde5380c;
    0xa4beea44; 0x4bdecfa9; 0xf6bb4b60; 0xbebfbc70;
    0x289b7ec6; 0xeaa127fa; 0xd4ef3085; 0x04881d05;
    0xd9d4d039; 0xe6db99e5; 0x1fa27cf8; 0xc4ac5665;
    0xf4292244; 0x432aff97; 0xab9423a7; 0xfc93a039;
    0x655b59c3; 0x8f0ccc92; 0xffeff47d; 0x85845dd1;
    0x6fa87e4f; 0xfe2ce6e0; 0xa3014314; 0x4e0811a1;
    0xf7537e82; 0xbd3af235; 0x2ad7d2bb; 0xeb86d391 ].

(** The chaining value (A, B, C, D). *)
Record state := State { sA : Z; sB : Z; sC : Z; sD : Z }.

Definition init : state :=
  State 0x67452301 0xefcdab89 0x98badcfe 0x10325476.

(** Little-endian serialisation of words and lengths. *)
Definition word_of_bytes (b0 b1 b2 b3 : Z) : Z :=
  Z.lor b0 (Z.lor (Z.shiftl b1 8) (Z.lor (Z.shiftl b2 16) (Z.shiftl b3 24))).

Definition bytes_of_word (w : Z) : list Z :=
  [ Z.land w 0xff; Z.land (Z.shiftr w 8) 0xff;
    Z.land (Z.shiftr w 16) 0xff; Z.land (Z.shiftr w 24) 0xff ].

Definition bytes_of_length (bits : Z) : list Z :=
  bytes_of_word (wrap bits) ++ bytes_of_word (wrap (Z.shiftr bits 32)).

Fixpoint words_of_bytes (bs : list Z) : list Z :=
  match bs with
  | b0 :: b1 :: b2 :: b3 :: rest => word_of_bytes b0 b1 b2 b3 :: words_of_bytes rest
  | _ => []
  end.

(** Padding: a single 1 bit, zeros up to 56 mod 64, the bit length. *)
Definition pad (msg : list Z) : list Z :=
  let len := Z.of_nat (List.length msg) in
  let zeros := Z.to_nat ((55 - len) mod 64) in
  msg ++ [0x80] ++ repeat 0 zeros ++ bytes_of_length (8 * len).

(** One of the 64 operations of a block. *)
Definition step (M : list Z) (st : state) (i : nat) : state :=
  let '(State a b c d) := st in
  let iz := Z.of_nat i in
  let '(f, g) :=
    if iz <? 16 then (Z.lor (Z.land b c) (Z.land (not32 b) d), iz)
    else if iz <? 32 then (Z.lor (Z.land d b) (Z.land (not32 d) c), (5 * iz + 1) mod 16)
    else if iz <? 48 then (Z.lxor b (Z.lxor c d), (3 * iz + 5) mod 16)
    else (Z.lxor c (Z.lor b (not32 d)), (7 * iz) mod 16) in
  let f' := add32 (add32 (add32 f a) (nth i K 0)) (nth (Z.to_nat g) M 0) in
  State d (add32 b (rotl32 f' (nth i S 0))) b c.

Definition block (st : state) (M : list Z) : state :=
  let '(State a b c d) := fold_left (step M) (seq 0 64) st in
  State (add32 (sA st) a) (add32 (sB st) b) (add32 (sC st) c) (add32 (sD st) d).

(** Cut the padded message into blocks of 16 words; [n] counts blocks. *)
Fixpoint blocks (n : nat) (ws : list Z) : list (list Z) :=
  match n with
  | O => []
  | Datatypes.S n' => firstn 16 ws :: blocks n' (skipn 16 ws)
  end.

Definition digest (msg : list Z) : list Z :=
  let padded := pad msg in
  let ws := words_of_bytes padded in
  let st := fold_left block (blocks (List.length padded / 64) ws) init in
  bytes_of_word (sA st) ++ bytes_of_word (sB st) ++
  bytes_of_word (sC st) ++ bytes_of_word (sD st).

End MD5.

(** ** Strings as bytes, and hexadecimal output *)

(** [hash.update(str)]: the UTF-8 bytes of the string. *)
Definition bytes_of_string (s : string) : list Z :=
  map (fun c => Z.of_N (N_of_ascii c)) (list_ascii_of_string s).

Definition hex_digit (d : Z) : ascii :=
  ascii_of_N (Z.to_N (if d <? 10 then 48 + d else 87 + d)).

(** [digest("hex")]: two lowercase hexadecimal digits per byte, high nibble
    first. *)
Fixpoint hex (bs : list Z) : string :=
  match bs with
  | [] => EmptyString
  | b :: rest => String (hex_digit (b / 16)) (String (hex_digit (b mod 16)) (hex rest))
  end.

(** [function md5(str)] *)
Definition md5 (str : string) : string :=
  hex (MD5.digest (bytes_of_string str)).

(* ===================================================================== *)
(** * JavaScript values and objects                                        *)
(* ===================================================================== *)

(** The values the script handles: [undefined], strings, and the numeric
    timestamp (an integer). *)
Inductive jsval :=
| JUndefined
| JStr (s : string)
| JNum (n : Z).

(** [String(v)], the conversion template literals and [URLSearchParams]
    apply.  An integer (of magnitude below 10^21, as every number here is)
    prints in decimal, with a leading minus sign when negative. *)
Definition ToString (v : jsval) : string :=
  match v with
  | JUndefined => "undefined"
  | JStr s => s
  | JNum n => pretty n
  end.

(** Truthiness: [undefined], the empty string and [0] are falsy. *)
Definition truthy (v : jsval) : bool :=
  match v with
  | JUndefined => false
  | JStr s => negb (String.eqb s EmptyString)
  | JNum n => negb (n =? 0)
  end.

(** [a || b] *)
Definition or_else (a b : jsval) : jsval := if truthy a then a else b.

(** A string that may be [undefined] (a command-line value, a CSV field,
    an array element out of range). *)
Definition js (o : option string) : jsval :=
  match o with
  | Some s => JStr s
  | None => JUndefined
  end.

(** An object is its own properties in property order; keys are distinct. *)
Definition object (V : Type) : Type := list (string * V).

(** [Object.entries(o)] *)
Definition entries {V} (o : object V) : list (string * V) := o.

(** [Object.values(o)] *)
Definition values_of {V} (o : object V) : list V := map snd o.

(** [o[k]]: [None] is [undefined]. *)
Fixpoint get {V} (o : object V) (k : string) : option V :=
  match o with
  | [] => None
  | (k', v) :: rest => if String.eqb k' k then Some v else get rest k
  end.

(** [o[k] = v]: an existing property keeps its place, a new one goes last. *)
Fixpoint set {V} (o : object V) (k : string) (v : V) : object V :=
  match o with
  | [] => [(k, v)]
  | (k', v') :: rest =>
      if String.eqb k' k then (k', v) :: rest else (k', v') :: set rest k v
  end.

(** [Array.prototype.sort(compare)].  The sort is stable, and [b] moves in
    front of [a] only when [compare(a, b) > 0]; for a consistent comparator
    that fixes the result, computed here by insertion from the right. *)
Fixpoint sort_insert {A} (compare : A -> A -> Z) (x : A) (l : list A) : list A :=
  match l with
  | [] => [x]
  | y :: l' => if compare x y >? 0 then y :: sort_insert compare x l' else x :: l
  end.

Definition sort {A} (compare : A -> A -> Z) (l : list A) : list A :=
  fold_right (sort_insert compare) [] l.

(** [Array.prototype.flat()] on an array of [key, value] pairs. *)
Definition flat (es : list (string * jsval)) : list jsval :=
  flat_map (fun '(k, v) => [JStr k; v]) es.

(** The text of one element under [join]: [undefined] contributes the
    empty string, anything else its [ToString]. *)
Definition elementText (v : jsval) : string :=
  match v with
  | JUndefined => EmptyString
  | _ => ToString v
  end.

(** [Array.prototype.join(sep)] *)
Fixpoint join (sep : string) (xs : list jsval) : string :=
  match xs with
  | [] => EmptyString
  | [x] => elementText x
  | x :: rest => elementText x +:+ sep +:+ join sep rest
  end.

(** A comparator by code units, one consistent comparator on strings.  It
    stands in for [localeCompare] wherever a concrete run is evaluated. *)
Definition codeUnitCompare (a b : string) : Z :=
  match String.compare a b with
  | Lt => -1
  | Eq => 0
  | Gt => 1
  end.

(** ** The signing scheme in the specification's words *)

(** Each key immediately followed by its value, for every entry in order. *)
Fixpoint keyValueText (es : list (string * jsval)) : string :=
  match es with
  | [] => EmptyString
  | (k, v) :: rest => k +:+ elementText v +:+ keyValueText rest
  end.

Definition is_lower_hex (c : ascii) : bool :=
  let n := N_of_ascii c in
  ((48 <=? n) && (n <=? 57) || (97 <=? n) && (n <=? 102))%N.

(* ===================================================================== *)
(** * Effects                                                             *)
(* ===================================================================== *)

(** What the script does to the outside world, in order. *)
Inductive event :=
| Stdout (text : string)                              (* process.stdout.write *)
| Stderr (text : string)                              (* process.stderr.write *)
| Fetch (url : string) (body : object string)         (* fetch(url, {method: "POST", body}) *)
| ReadFile (path : string)                            (* fs.readFile(path, "utf8") *)
| ReadStdin                                           (* for await (chunk of process.stdin) *)
| SetTimeout (ms : Z).                                (* await setTimeout(resolve, ms) *)

(** A settled promise (or a call that may throw): fulfilled with a value or
    rejected with an error, of which the script only reads [message]. *)
Inductive settled (A : Type) :=
| Fulfilled (a : A)
| Rejected (message : string).
Arguments Fulfilled {A} a.
Arguments Rejected {A} message.

(** The fields the script reads of a JSON response: [data.error],
    [data.message] and [data.session.key] ([None]: no [session]). *)
Record json := Json {
  j_error : jsval;
  j_message : jsval;
  j_session : option jsval
}.

(** A parsed CSV record: an array of fields ([columns: false]) or an object
    keyed by the header names ([columns: true]). *)
Inductive record :=
| Fields (fields : list string)
| Columns (props : object string).

(** What the outside world answers.  Replies and clock readings are indexed
    by the 0-based row being processed, the only places they are asked. *)
Record world := World {
  auth_reply : settled json;                 (* the auth.getMobileSession response *)
  scrobble_reply : nat -> settled json;      (* the track.scrobble response for row i *)
  now : nat -> Z;                            (* Date.now() (milliseconds) at row i *)
  read_file : string -> settled string;      (* fs.readFile *)
  stdin : settled (list string);             (* the chunks of process.stdin *)
  csv_parse : string -> bool -> string -> settled (list record)
                                             (* parse(data, {delimiter, columns, ...}) *)
}.

(** [let successCount], [let errorCount] *)
Record counters := Counters { successCount : nat; errorCount : nat }.

(** How a computation ends: normally, by a thrown error, or by
    [process.exit(code)], which no [catch] intercepts. *)
Inductive completion (A : Type) :=
| Normal (a : A)
| Throw (message : string)
| Exit (code : Z).
Arguments Normal {A} a.
Arguments Throw {A} message.
Arguments Exit {A} code.

(** Computations: they read and update the counters, emit events, and
    complete. *)
Definition M (A : Type) : Type := counters -> list event * counters * completion A.

Definition ret {A} (a : A) : M A := fun c => ([], c, Normal a).

Definition bind {A B} (m : M A) (f : A -> M B) : M B :=
  fun c =>
    let '(t1, c1, r) := m c in
    match r with
    | Normal a => let '(t2, c2, r2) := f a c1 in (t1 ++ t2, c2, r2)
    | Throw e => (t1, c1, Throw e)
    | Exit n => (t1, c1, Exit n)
    end.

Definition emit (e : event) : M unit := fun c => ([e], c, Normal tt).
Definition throw {A} (message : string) : M A := fun c => ([], c, Throw message).
Definition exit {A} (code : Z) : M A := fun c => ([], c, Exit code).
Definition getCounters : M counters := fun c => ([], c, Normal c).
Definition putCounters (c' : counters) : M unit := fun _ => ([], c', Normal tt).

(** [try { m } catch (error) { handler(error) }] *)
Definition try_catch {A} (m : M A) (handler : string -> M A) : M A :=
  fun c =>
    let '(t1, c1, r) := m c in
    match r with
    | Throw e => let '(t2, c2, r2) := handler e c1 in (t1 ++ t2, c2, r2)
    | _ => (t1, c1, r)
    end.

(** [await p] *)
Definition await {A} (p : settled A) : M A :=
  match p with
  | Fulfilled a => ret a
  | Rejected message => throw message
  end.

Declare Scope script_scope.
Delimit Scope script_scope with script.
Notation "x <- m ;; k" := (bind m (fun x => k))
  (at level 100, m at next level, right associativity) : script_scope.
Notation "m ;; k" := (bind m (fun _ => k))
  (at level 100, right associativity) : script_scope.
Local Open Scope script_scope.

(** ** Text helpers *)

Definition nl : string := String "010" EmptyString.
Definition dquote : string := String "034" EmptyString.

(** [String.prototype.padEnd(n)] *)
Definition padEnd (n : nat) (s : string) : string :=
  s +:+ string_of_list_ascii (repeat " "%char (n - String.length s)).

(** [lines.join("\n")] *)
Fixpoint joinLines (lines : list string) : string :=
  match lines with
  | [] => EmptyString
  | [l] => l
  | l :: rest => l +:+ nl +:+ joinLines rest
  end.

(* ===================================================================== *)
(** * Command-line options                                                *)
(* ===================================================================== *)

(** One entry of [const options]; [default] holds the default as printed. *)
Record option_config := OptionConfig {
  type : string;
  short : string;
  default : option string;
  description : string;
  required : bool
}.

Definition options : object option_config :=
  [ ("api-key", OptionConfig "string" "k" None "Last.fm API key" true);
    ("api-secret", OptionConfig "string" "s" None "Last.fm API secret" true);
    ("username", OptionConfig "string" "u" None "Last.fm username" true);
    ("password", OptionConfig "string" "p" None "Last.fm password" true);
    ("delimiter", OptionConfig "string" "d" (Some ",") "CSV delimiter" false);
    ("header", OptionConfig "boolean" "H" (Some "false")
       "CSV has header row (recognised headers: artist, track, title)" false);
    ("debug", OptionConfig "boolean" "D" (Some "false") "Show debug output" false);
    ("help", OptionConfig "boolean" "h" None "Show this help message" false) ].

(** [parseArgs(...).values]: a string option without default is a string or
    [undefined], [delimiter] always has its default, boolean options are
    [true] or falsy. *)
Record values := Values {
  api_key : option string;
  api_secret : option string;
  username : option string;
  password : option string;
  delimiter : string;
  header : bool;
  debug : bool;
  help : bool
}.

(** [!!values[param]] *)
Definition value_truthy (vs : values) (param : string) : bool :=
  if String.eqb param "api-key" then truthy (js (api_key vs))
  else if String.eqb param "api-secret" then truthy (js (api_secret vs))
  else if String.eqb param "username" then truthy (js (username vs))
  else if String.eqb param "password" then truthy (js (password vs))
  else if String.eqb param "delimiter" then truthy (JStr (delimiter vs))
  else if String.eqb param "header" then header vs
  else if String.eqb param "debug" then debug vs
  else if String.eqb param "help" then help vs
  else false.

(** [function printHelp()] *)
Definition helpLine (name : string) (opt : option_config) : string :=
  let shortOpt :=
    if String.eqb (short opt) EmptyString then "    "
    else "-" +:+ short opt +:+ ", " in
  let description :=
    if required opt then description opt +:+ " (required)"
    else match default opt with
         | Some d => description opt +:+ " (default: " +:+ dquote +:+ d +:+ dquote +:+ ")"
         | None => description opt
         end in
  shortOpt +:+ "--" +:+ padEnd 12 name +:+ " " +:+ description.

Definition helpText : string :=
  joinLines
    ([ "Usage:";
       "scrobble-me-this OPTIONS CSV_FILE";
       "cat CSV_FILE | scrobble-me-this OPTIONS";
       EmptyString;
       "Options:" ]
     ++ map (fun '(name, opt) => helpLine name opt) (entries options)
     ++ [ EmptyString;
          "Getting Last.fm API Credentials:";
          "1. Go to <https://www.last.fm/api/account/create>";
          "2. Create a new API account";
          "3. Note your API key and API secret";
          "4. Use your regular Last.fm username and password for authentication";
          EmptyString ]).

Definition printHelp : M unit := emit (Stdout helpText).

(** The loop over [Object.entries(options)] that reports the first
    required option without a truthy value. *)
Fixpoint checkRequired (vs : values) (opts : list (string * option_config)) : M unit :=
  match opts with
  | [] => ret tt
  | (param, config) :: rest =>
      if required config && negb (value_truthy vs param) then
        emit (Stderr ("Error: " +:+ param +:+ " is required" +:+ nl)) ;;
        exit 1
      else checkRequired vs rest
  end.

(* ===================================================================== *)
(** * The script                                                          *)
(* ===================================================================== *)

Definition endpoint : string := "https://ws.audioscrobbler.com/2.0/".

(** Engine-worded [TypeError] messages of two paths no validated run
    takes: hashing an [undefined] password, and a response without
    [session]. *)
Definition invalid_data_message : string :=
  "The " +:+ dquote +:+ "data" +:+ dquote +:+
  " argument must be of type string or an instance of Buffer, "
  +:+ "TypedArray, or DataView. Received undefined".
Definition no_session_message : string :=
  "Cannot read properties of undefined (reading 'key')".

(** [Object.values(record)[n]] *)
Definition valueAt (r : record) (n : nat) : jsval :=
  match r with
  | Fields fields => js (nth_error fields n)
  | Columns props => js (nth_error (values_of props) n)
  end.

(** [record[name]]: an array of fields has no named column. *)
Definition column (r : record) (name : string) : jsval :=
  match r with
  | Fields _ => JUndefined
  | Columns props => js (get props name)
  end.

(** The artist and the track of a record, lines 223-231. *)
Definition resolveArtist (hdr : bool) (r : record) : jsval :=
  if hdr then or_else (column r "artist") (column r "Artist")
  else valueAt r 0.

Definition resolveTrack (hdr : bool) (r : record) : jsval :=
  if hdr then
    or_else (or_else (or_else (column r "track") (column r "Track")) (column r "title"))
            (column r "Title")
  else valueAt r 1.

Section Script.

(** [String.prototype.localeCompare]: negative, zero or positive.  The
    collation lives in the platform (ICU), so it is a parameter. *)
Variable localeCompare : string -> string -> Z.

(** [([a], [b]) => a.localeCompare(b)] *)
Definition byKey (e1 e2 : string * jsval) : Z :=
  localeCompare (fst e1) (fst e2).

(** [function createSignature(params, apiSecret)] *)
Definition createSignature (params : object jsval) (apiSecret : jsval) : string :=
  let signatureData := flat (sort byKey (entries params)) ++ [apiSecret] in
  md5 (join EmptyString signatureData).

Variable w : world.
Variable vs : values.
Variable positionals : list string.

(** [new URLSearchParams({...params, api_sig, format: "json"})] *)
Definition requestBody (params : object jsval) : object string :=
  let apiSecret := js (api_secret vs) in
  let fields :=
    set (set params "api_sig" (JStr (createSignature params apiSecret)))
        "format" (JStr "json") in
  map (fun '(k, v) => (k, ToString v)) fields.

(** [async function lastFmRequest(params)]; [reply] is how [fetch] and
    [response.json()] settle for this call. *)
Definition lastFmRequest (reply : settled json) (params : object jsval) : M json :=
  emit (Fetch endpoint (requestBody params)) ;;
  await reply.

(** [async function getAuthToken()] *)
Definition getAuthToken : M jsval :=
  match password vs with
  | None => throw invalid_data_message
  | Some pw =>
      data <- lastFmRequest (auth_reply w)
                [ ("api_key", js (api_key vs));
                  ("method", JStr "auth.getMobileSession");
                  ("username", js (username vs));
                  ("authToken", JStr (md5 (ToString (js (username vs)) +:+ md5 pw))) ] ;;
      if truthy (j_error data) then
        throw ("Last.fm authentication error: " +:+ ToString (j_message data))
      else
        match j_session data with
        | Some key => ret key
        | None => throw no_session_message
        end
  end.

(** [async function scrobbleTrack(sessionKey, artist, track, timestamp)] *)
Definition scrobbleTrack (reply : settled json)
    (sessionKey artist track : jsval) (timestamp : Z) : M json :=
  data <- lastFmRequest reply
            [ ("method", JStr "track.scrobble");
              ("api_key", js (api_key vs));
              ("sk", sessionKey);
              ("artist", artist);
              ("track", track);
              ("timestamp", JNum timestamp) ] ;;
  if truthy (j_error data) then
    throw ("Last.fm scrobbling error: " +:+ ToString (j_message data))
  else ret data.

(** [async function readInput()] *)
Definition readInput : M string :=
  match positionals with
  | path :: _ => emit (ReadFile path) ;; await (read_file w path)
  | [] =>
      emit ReadStdin ;;
      chunks <- await (stdin w) ;;
      ret (fold_left String.append chunks EmptyString)
  end.

(** [async function parseCsv(csvData)] *)
Definition parseCsv (csvData : string) : M (list record) :=
  await (csv_parse w (delimiter vs) (header vs) csvData).

(** [Math.floor(Date.now() / 1000) - (records.length - i) * 30] *)
Definition timestampFor (n i : nat) : Z :=
  now w i / 1000 - (Z.of_nat n - Z.of_nat i) * 30.

Definition incrSuccess : M unit :=
  c <- getCounters ;; putCounters (Counters (S (successCount c)) (errorCount c)).
Definition incrError : M unit :=
  c <- getCounters ;; putCounters (Counters (successCount c) (S (errorCount c))).

(** The body of the [for] loop for [records[i]], [n = records.length]. *)
Definition processRow (sessionKey : jsval) (n i : nat) (r : record) : M unit :=
  let artist := resolveArtist (header vs) r in
  let track := resolveTrack (header vs) r in
  if negb (truthy artist) || negb (truthy track) then
    emit (Stderr ("Error: Could not determine artist and track from line "
                  +:+ pretty (i + 1)%nat +:+ nl)) ;;
    incrError
  else
    try_catch
      (let timestamp := timestampFor n i in
       scrobbleTrack (scrobble_reply w i) sessionKey artist track timestamp ;;
       emit (Stdout ("Scrobbled: " +:+ ToString artist +:+ " - " +:+ ToString track +:+ nl)) ;;
       incrSuccess ;;
       emit (SetTimeout 200))
      (fun message =>
         emit (Stderr ("Error scrobbling " +:+ dquote +:+ ToString artist +:+ " - "
                       +:+ ToString track +:+ dquote +:+ ": " +:+ message +:+ nl)) ;;
         incrError).

(** [for (let i = 0; i < records.length; i++)], entered at index [i] with
    [rest] the records from [i] on. *)
Fixpoint loop (sessionKey : jsval) (n i : nat) (rest : list record) : M unit :=
  match rest with
  | [] => ret tt
  | r :: rest' => processRow sessionKey n i r ;; loop sessionKey n (S i) rest'
  end.

(** The top-level [try] block, lines 203-255. *)
Definition mainBlock : M unit :=
  emit (Stdout ("Authenticating with Last.fm..." +:+ nl)) ;;
  sessionKey <- getAuthToken ;;
  emit (Stdout ("Authentication successful" +:+ nl)) ;;
  csvData <- readInput ;;
  records <- parseCsv csvData ;;
  emit (Stdout ("Found " +:+ pretty (List.length records) +:+ " tracks to scrobble" +:+ nl)) ;;
  putCounters (Counters 0 0) ;;
  loop sessionKey (List.length records) 0 records ;;
  c <- getCounters ;;
  emit (Stdout (nl +:+ "Scrobbling complete: " +:+ pretty (successCount c)
                +:+ " successful, " +:+ pretty (errorCount c) +:+ " failed" +:+ nl)).

(** The module body from line 191 on. *)
Definition script : M unit :=
  (if help vs then printHelp ;; exit 0 else ret tt) ;;
  checkRequired vs (entries options) ;;
  try_catch mainBlock
    (fun message =>
       emit (Stderr ("Error: " +:+ message +:+ nl)) ;;
       if debug vs then throw message else exit 1).

(** A run: the events in order, and how the process ends. *)
Definition run : list event * completion unit :=
  let '(t, _, r) := script (Counters 0 0) in (t, r).

End Script.

(** The exit status the process reports: 0 when the module body runs to its
    end, the code given to [process.exit]; an uncaught error has none of
    its own choosing. *)
Definition exitCode (r : completion unit) : option Z :=
  match r with
  | Normal _ => Some 0
  | Exit code => Some code
  | Throw _ => None
  end.

(** ** Reading a trace *)

(** The requests of the two remote methods, told apart by [method]. *)
Definition methodOf (e : event) : option string :=
  match e with
  | Fetch _ body => get body "method"
  | _ => None
  end.

Definition isAuth (e : event) : bool :=
  match methodOf e with
  | Some m => String.eqb m "auth.getMobileSession"
  | None => false
  end.

Definition isScrobble (e : event) : bool :=
  match methodOf e with
  | Some m => String.eqb m "track.scrobble"
  | None => false
  end.

Definition isPause (e : event) : bool :=
  match e with
  | SetTimeout _ => true
  | _ => false
  end.

(** Reading the input, from the file or from standard input. *)
Definition isInputRead (e : event) : bool :=
  match e with
  | ReadFile _ | ReadStdin => true
  | _ => false
  end.

(** The two lines around authentication. *)
Definition authLine : event := Stdout ("Authenticating with Last.fm..." +:+ nl).
Definition authenticatedLine : event := Stdout ("Authentication successful" +:+ nl).

(** The lines the loop writes for a row. *)
Definition lineError (i : nat) : string :=
  "Error: Could not determine artist and track from line " +:+ pretty (i + 1)%nat +:+ nl.

Definition scrobbledLine (artist track : jsval) : string :=
  "Scrobbled: " +:+ ToString artist +:+ " - " +:+ ToString track +:+ nl.

Definition scrobbleErrorLine (artist track : jsval) (message : string) : string :=
  "Error scrobbling " +:+ dquote +:+ ToString artist +:+ " - " +:+ ToString track
    +:+ dquote +:+ ": " +:+ message +:+ nl.

(** What a run writes to the two streams, in order. *)
Definition isReport (e : event) : bool :=
  match e with
  | Stdout _ | Stderr _ => true
  | _ => false
  end.

(** The final line of a completed run. *)
Definition summaryLine (successes errors : nat) : string :=
  nl +:+ "Scrobbling complete: " +:+ pretty successes +:+ " successful, "
     +:+ pretty errors +:+ " failed" +:+ nl.

(** The request [scrobbleTrack] sends for a row. *)
Definition scrobbleParams (vs : values) (sessionKey artist track : jsval) (timestamp : Z)
  : object jsval :=
  [ ("method", JStr "track.scrobble");
    ("api_key", js (api_key vs));
    ("sk", sessionKey);
    ("artist", artist);
    ("track", track);
    ("timestamp", JNum timestamp) ].

(** The three components of running a computation. *)
Definition traceOf {A} (m : M A) (c : counters) : list event := fst (fst (m c)).
Definition countersOf {A} (m : M A) (c : counters) : counters := snd (fst (m c)).
Definition completionOf {A} (m : M A) (c : counters) : completion A := snd (m c).

(** Line 233 lets the record through: both values are truthy. *)
Definition resolves (vs : values) (r : record) : bool :=
  truthy (resolveArtist (header vs) r) && truthy (resolveTrack (header vs) r).

(** The request the loop sends for [records[i]], and how its
    [scrobbleTrack] call completes. *)
Definition rowRequest (localeCompare : string -> string -> Z) (w : world) (vs : values)
    (sessionKey : jsval) (n i : nat) (r : record) : event :=
  Fetch endpoint
    (requestBody localeCompare vs
       (scrobbleParams vs sessionKey (resolveArtist (header vs) r)
          (resolveTrack (header vs) r) (timestampFor w n i))).

Definition submissionOf (localeCompare : string -> string -> Z) (w : world) (vs : values)
    (sessionKey : jsval) (n i : nat) (r : record) : completion json :=
  completionOf
    (scrobbleTrack localeCompare vs (scrobble_reply w i) sessionKey
       (resolveArtist (header vs) r) (resolveTrack (header vs) r) (timestampFor w n i))
    (Counters 0 0).

(** The requests of the rows from index [i] on that pass line 233. *)
Fixpoint rowRequests (localeCompare : string -> string -> Z) (w : world) (vs : values)
    (sessionKey : jsval) (n i : nat) (rest : list record) : list event :=
  match rest with
  | [] => []
  | r :: rest' =>
      (if resolves vs r then [rowRequest localeCompare w vs sessionKey n i r] else [])
      ++ rowRequests localeCompare w vs sessionKey n (S i) rest'
  end.

(** A field of the form body of a request. *)
Definition requestField (e : event) (name : string) : option string :=
  match e with
  | Fetch _ body => get body name
  | _ => None
  end.

(** The counters before any row. *)
Definition start : counters := Counters 0 0.

(** The arguments pass both checks at the top of the module. *)
Definition argumentsAccepted (vs : values) : Prop :=
  help vs = false /\
  forall param config, In (param, config) options ->
    required config = true -> value_truthy vs param = true.

(** The run gets as far as the loop: authentication returned [sessionKey]
    and the input was read and parsed into [records]. *)
Definition reachesLoop (localeCompare : string -> string -> Z) (w : world) (vs : values)
    (positionals : list string) (sessionKey : jsval) (records : list record) : Prop :=
  completionOf (getAuthToken localeCompare w vs) start = Normal sessionKey /\
  exists csvData,
    completionOf (readInput w positionals) start = Normal csvData /\
    csv_parse w (delimiter vs) (header vs) csvData = Fulfilled records.

(** A failure the top-level [catch] receives: authentication threw, or
    reading the input did, or parsing it did. *)
Definition topLevelFailure (localeCompare : string -> string -> Z) (w : world) (vs : values)
    (positionals : list string) (message : string) : Prop :=
  completionOf (getAuthToken localeCompare w vs) start = Throw message
  \/ (exists sessionKey,
        completionOf (getAuthToken localeCompare w vs) start = Normal sessionKey /\
        completionOf (readInput w positionals) start = Throw message)
  \/ (exists sessionKey csvData,
        completionOf (getAuthToken localeCompare w vs) start = Normal sessionKey /\
        completionOf (readInput w positionals) start = Normal csvData /\
        csv_parse w (delimiter vs) (header vs) csvData = Rejected message).

(** ** Further readings of requests and runs *)

(** The parameters [getAuthToken] sends, [pw] being [values["password"]]. *)
Definition authParams (vs : values) (pw : string) : object jsval :=
  [ ("api_key", js (api_key vs));
    ("method", JStr "auth.getMobileSession");
    ("username", js (username vs));
    ("authToken", JStr (md5 (ToString (js (username vs)) +:+ md5 pw))) ].

(** Any request to the remote service. *)
Definition isFetch (e : event) : bool :=
  match e with
  | Fetch _ _ => true
  | _ => false
  end.

(** [s.startsWith(p)] *)
Fixpoint startsWith (p s : string) : bool :=
  match p with
  | EmptyString => true
  | String c p' =>
      match s with
      | EmptyString => false
      | String d s' => Ascii.eqb c d && startsWith p' s'
      end
  end.

(** A request as [lastFmRequest] builds it: posted to the fixed endpoint,
    asking for JSON, carrying a signature of 32 lowercase hexadecimal
    digits. *)
Definition signedRequest (e : event) : Prop :=
  match e with
  | Fetch url body =>
      url = endpoint /\
      get body "format" = Some "json" /\
      exists sig, get body "api_sig" = Some sig /\
                  String.length sig = 32%nat /\
                  forallb is_lower_hex (list_ascii_of_string sig) = true
  | _ => True
  end.


(** The same command line with [--debug] set to [dbg]. *)
Definition withDebug (dbg : bool) (vs : values) : values :=
  Values (api_key vs) (api_secret vs) (username vs) (password vs)
         (delimiter vs) (header vs) dbg (help vs).

(** [chunks.join("")], the text a sequence of stdin chunks spells. *)
Fixpoint chunksText (chunks : list string) : string :=
  match chunks with
  | [] => EmptyString
  | chunk :: rest => chunk +:+ chunksText rest
  end.

(** ** Comparators *)

(** [compare] orders the keys: any two are comparable, and the order is
    transitive. *)
Record consistentOn (compare : string -> string -> Z) (keys : list string) : Prop := {
  total_on : forall a b, In a keys -> In b keys -> compare a b > 0 -> compare b a <= 0;
  trans_on : forall a b c, In a keys -> In b keys -> In c keys ->
             compare a b <= 0 -> compare b c <= 0 -> compare a c <= 0
}.


(** [x] need not move behind [y]. *)
Definition notAfter {A} (compare : A -> A -> Z) (x y : A) : Prop := compare x y <= 0.

(** Entries in ascending order of their keys. *)
Definition ascending (compare : string -> string -> Z) (e1 e2 : string * jsval) : Prop :=
  compare (fst e1) (fst e2) <= 0.

(** ** csv-parse on one row *)

(** The fields of one row without quoting, cut at a one-character
    delimiter, each trimmed ([trim: true]). *)
Fixpoint splitChars (d : ascii) (cs : list ascii) : list (list ascii) :=
  match cs with
  | [] => [[]]
  | c :: rest =>
      if Ascii.eqb c d then [] :: splitChars d rest
      else match splitChars d rest with
           | f :: fs => (c :: f) :: fs
           | [] => [[c]]
           end
  end.

Definition isBlank (c : ascii) : bool :=
  Ascii.eqb c " "%char || Ascii.eqb c "009"%char.

Fixpoint trimStart (cs : list ascii) : list ascii :=
  match cs with
  | c :: rest => if isBlank c then trimStart rest else cs
  | [] => []
  end.

Definition trimChars (cs : list ascii) : list ascii :=
  rev (trimStart (rev (trimStart cs))).

Definition csvFields (d : ascii) (row : string) : list string :=
  map (fun f => string_of_list_ascii (trimChars f)) (splitChars d (list_ascii_of_string row)).

(** The record of a data row under [columns: true]: one property per
    header name, in header order. *)
Definition fromColumns (headerRow dataRow : list string) : record :=
  Columns (fold_left (fun o '(k, v) => set o k v) (combine headerRow dataRow) []).

(** ** Mocked services *)

(** Replies of a mocked remote service. *)
Definition sessionReply (key : string) : settled json :=
  Fulfilled (Json JUndefined JUndefined (Some (JStr key))).
Definition acceptedReply : settled json :=
  Fulfilled (Json JUndefined JUndefined None).
Definition errorReply (code : Z) (message : string) : settled json :=
  Fulfilled (Json (JNum code) (JStr message) None).

(** A world whose input parses to [records] and whose clock advances 250
    milliseconds per row. *)
Definition mockWorld (auth : settled json) (replies : nat -> settled json)
    (records : list record) : world :=
  World auth replies (fun i => 1700000000000 + 250 * Z.of_nat i)
        (fun _ => Fulfilled "tracks") (Fulfilled []) (fun _ _ _ => Fulfilled records).

Definition mockValues (hdr dbg : bool) : values :=
  Values (Some "KEY") (Some "SECRET") (Some "alice") (Some "hunter2") "," hdr dbg false.

(** Three rows, the remote service rejecting the second. *)
Definition threeRows : list record :=
  [ Fields ["Radiohead"; "Paranoid Android"];
    Fields ["Portishead"; "Roads"];
    Fields ["Massive Attack"; "Teardrop"] ].

Definition secondFails (i : nat) : settled json :=
  if Nat.eqb i 1 then errorReply 29 "Rate limit exceeded" else acceptedReply.

(** Push [List.filter] through the events of a trace. *)
Ltac simplify_filters :=
  repeat first
    [ rewrite List.filter_app
    | progress (cbn [List.filter isScrobble isAuth isPause methodOf app]) ].

Arguments md5 : simpl never.
Arguments createSignature : simpl never.
Arguments requestBody : simpl never.

(* ===================================================================== *)
(** * Properties of the digest and of hexadecimal output                  *)
(* ===================================================================== *)

(** RFC 1321, appendix A.5: the reference test suite. *)
Example md5_empty : md5 EmptyString = "d41d8cd98f00b204e9800998ecf8427e".
Proof. vm_compute. reflexivity. Qed.

Example md5_a : md5 "a" = "0cc175b9c0f1b6a831c399e269772661".
Proof. vm_compute. reflexivity. Qed.

Example md5_abc : md5 "abc" = "900150983cd24fb0d6963f7d28e17f72".
Proof. vm_compute. reflexivity. Qed.

Example md5_message_digest :
  md5 "message digest" = "f96b697d7cb7938d525a2f31aaf161d0".
Proof. vm_compute. reflexivity. Qed.

Example md5_alphabet :
  md5 "abcdefghijklmnopqrstuvwxyz" = "c3fcd3d76192e4007dfb496cca67e13b".
Proof. vm_compute. reflexivity. Qed.

Example md5_alphanumeric :
  md5 "ABCDEFGHIJKLMNOPQRSTUVWXYZabcdefghijklmnopqrstuvwxyz0123456789"
  = "d174ab98d277d9f5a5611c2c9f419d9f".
Proof. vm_compute. reflexivity. Qed.

Example md5_digits :
  md5 "12345678901234567890123456789012345678901234567890123456789012345678901234567890"
  = "57edf4a22be3c955ac49da2e2107b67a".
Proof. vm_compute. reflexivity. Qed.

Lemma bytes_of_word_range (x : Z) :
  Forall (fun b => 0 <= b < 256) (MD5.bytes_of_word x).
Proof.
  assert (Hb : forall y, 0 <= Z.land y 0xff < 256).
  { intros y. change 0xff with (Z.ones 8).
    rewrite Z.land_ones by lia. apply Z.mod_pos_bound. lia. }
  unfold MD5.bytes_of_word. repeat constructor; apply Hb.
Qed.

Lemma digest_length (msg : list Z) : List.length (MD5.digest msg) = 16%nat.
Proof. unfold MD5.digest. cbv zeta. rewrite !length_app. reflexivity. Qed.

Lemma digest_range (msg : list Z) :
  Forall (fun b => 0 <= b < 256) (MD5.digest msg).
Proof.
  unfold MD5.digest. cbv zeta.
  repeat (apply Forall_app; split); apply bytes_of_word_range.
Qed.

Lemma hex_digit_lower (d : Z) : 0 <= d < 16 -> is_lower_hex (hex_digit d) = true.
Proof.
  intros Hd.
  assert (H : d = 0 \/ d = 1 \/ d = 2 \/ d = 3 \/ d = 4 \/ d = 5 \/ d = 6 \/ d = 7 \/
              d = 8 \/ d = 9 \/ d = 10 \/ d = 11 \/ d = 12 \/ d = 13 \/ d = 14 \/ d = 15)
    by lia.
  repeat (destruct H as [-> | H]; [reflexivity |]). subst d. reflexivity.
Qed.

Lemma hex_length (bs : list Z) : String.length (hex bs) = (2 * List.length bs)%nat.
Proof. induction bs as [| b bs IH]; simpl; [reflexivity | rewrite IH; lia]. Qed.

Lemma hex_lower (bs : list Z) :
  Forall (fun b => 0 <= b < 256) bs ->
  forallb is_lower_hex (list_ascii_of_string (hex bs)) = true.
Proof.
  induction 1 as [| b bs Hb _ IH]; [reflexivity |].
  cbn [hex list_ascii_of_string forallb].
  rewrite IH, !hex_digit_lower; [reflexivity | |].
  - apply Z.mod_pos_bound. lia.
  - split; [apply Z.div_pos; lia | apply Z.div_lt_upper_bound; lia].
Qed.

Lemma md5_length (str : string) : String.length (md5 str) = 32%nat.
Proof. unfold md5. rewrite hex_length, digest_length. reflexivity. Qed.

Lemma md5_lower (str : string) :
  forallb is_lower_hex (list_ascii_of_string (md5 str)) = true.
Proof. unfold md5. apply hex_lower, digest_range. Qed.

(* ===================================================================== *)
(** * Properties of [sort], [flat] and [join]                             *)
(* ===================================================================== *)

Section Sorting.

Context {A : Type} (compare : A -> A -> Z).

Lemma sort_insert_perm (x : A) (l : list A) :
  Permutation (x :: l) (sort_insert compare x l).
Proof.
  induction l as [| y l IH]; simpl; [reflexivity |].
  destruct (compare x y >? 0); [| reflexivity].
  rewrite perm_swap. apply perm_skip, IH.
Qed.

Lemma sort_perm (l : list A) : Permutation l (sort compare l).
Proof.
  induction l as [| x l IH]; simpl; [reflexivity |].
  rewrite <- sort_insert_perm. apply perm_skip, IH.
Qed.

Lemma sort_insert_sorted (x : A) (l : list A) :
  (forall y, In y l -> compare x y > 0 -> notAfter compare y x) ->
  (forall y z, In y l -> In z l ->
               notAfter compare x y -> notAfter compare y z -> notAfter compare x z) ->
  StronglySorted (notAfter compare) l ->
  StronglySorted (notAfter compare) (sort_insert compare x l).
Proof.
  intros Htot Htrans Hs.
  induction Hs as [| y l Hs IH Hy]; simpl.
  - repeat constructor.
  - destruct (compare x y >? 0) eqn:Hc.
    + constructor.
      * apply IH.
        -- intros y' Hy'. apply Htot. now right.
        -- intros y' z' Hy' Hz'. apply Htrans; now right.
      * apply (Permutation_Forall (sort_insert_perm x l)).
        constructor; [| exact Hy].
        apply Htot; [left; reflexivity | lia].
    + assert (Hxy : notAfter compare x y) by (unfold notAfter; lia).
      constructor; [constructor; assumption |].
      constructor; [exact Hxy |].
      rewrite Forall_forall in Hy |- *. intros z Hz.
      assert (Hz' : In z l) by now apply list_elem_of_In.
      apply (Htrans y z); simpl; auto.
Qed.

Lemma sort_sorted (l : list A) :
  (forall x y, In x l -> In y l -> compare x y > 0 -> notAfter compare y x) ->
  (forall x y z, In x l -> In y l -> In z l ->
                 notAfter compare x y -> notAfter compare y z -> notAfter compare x z) ->
  StronglySorted (notAfter compare) (sort compare l).
Proof.
  induction l as [| x l IH]; intros Htot Htrans; simpl; [constructor |].
  assert (Hin : forall y, In y (sort compare l) -> In y l).
  { intros y. apply Permutation_in. symmetry. apply sort_perm. }
  apply sort_insert_sorted.
  - intros y Hy. apply Htot; simpl; auto.
  - intros y z Hy Hz. apply Htrans; simpl; auto.
  - apply IH.
    + intros y z Hy Hz. apply Htot; now right.
    + intros y z z' Hy Hz Hz'. apply Htrans; now right.
Qed.

End Sorting.

Lemma append_cons (c : ascii) (s t : string) : String c s +:+ t = String c (s +:+ t).
Proof. reflexivity. Qed.

Lemma append_empty_r (s : string) : s +:+ EmptyString = s.
Proof.
  induction s as [| c s IH]; [reflexivity |].
  now rewrite append_cons, IH.
Qed.

Lemma append_assoc (s1 s2 s3 : string) : (s1 +:+ s2) +:+ s3 = s1 +:+ (s2 +:+ s3).
Proof.
  induction s1 as [| c s1 IH]; [reflexivity |].
  now rewrite !append_cons, IH.
Qed.

Lemma join_empty_cons (x : jsval) (xs : list jsval) :
  join EmptyString (x :: xs) = elementText x +:+ join EmptyString xs.
Proof.
  destruct xs as [| y ys]; [| reflexivity].
  cbn [join]. now rewrite append_empty_r.
Qed.

(** Joining the flattened entries and the secret with the empty separator
    writes every key directly followed by its value, then the secret. *)
Lemma join_flat (es : list (string * jsval)) (secret : jsval) :
  join EmptyString (flat es ++ [secret]) = keyValueText es +:+ elementText secret.
Proof.
  induction es as [| [k v] es IH].
  - reflexivity.
  - unfold flat in *. cbn [flat_map app keyValueText].
    rewrite !join_empty_cons, IH. cbn [elementText ToString].
    now rewrite !append_assoc.
Qed.

Section SignatureFacts.

Variable localeCompare : string -> string -> Z.

Lemma entries_sorted (P : object jsval) :
  consistentOn localeCompare (map fst P) ->
  StronglySorted (ascending localeCompare) (sort (byKey localeCompare) (entries P)).
Proof.
  intros [Htot Htrans].
  apply (sort_sorted (byKey localeCompare)); unfold byKey.
  - intros x y Hx Hy. apply Htot; now apply in_map.
  - intros x y z Hx Hy Hz. apply Htrans; now apply in_map.
Qed.

Lemma createSignature_text (P : object jsval) (secret : jsval) :
  createSignature localeCompare P secret
  = md5 (keyValueText (sort (byKey localeCompare) (entries P)) +:+ elementText secret).
Proof. unfold createSignature. cbv zeta. now rewrite join_flat. Qed.



End SignatureFacts.

(* ===================================================================== *)
(** * Properties of the service client and of one row                     *)
(* ===================================================================== *)

Section RowFacts.

Variable localeCompare : string -> string -> Z.
Variable w : world.
Variable vs : values.

Lemma lastFmRequest_run (reply : settled json) (params : object jsval) (c : counters) :
  lastFmRequest localeCompare vs reply params c
  = ([Fetch endpoint (requestBody localeCompare vs params)], c,
     match reply with
     | Fulfilled data => Normal data
     | Rejected message => Throw message
     end).
Proof. unfold lastFmRequest, bind, emit, await. destruct reply; reflexivity. Qed.

(** [scrobbleTrack] sends exactly one request, whatever the reply. *)
Lemma scrobbleTrack_trace (reply : settled json) (sk artist track : jsval)
    (timestamp : Z) (c : counters) :
  exists r,
    scrobbleTrack localeCompare vs reply sk artist track timestamp c
    = ([Fetch endpoint
          (requestBody localeCompare vs (scrobbleParams vs sk artist track timestamp))],
       c, r) /\
    (forall code, r <> Exit code).
Proof.
  unfold scrobbleTrack, bind. rewrite lastFmRequest_run.
  destruct reply as [data | message].
  - destruct (truthy (j_error data)); eexists; (split; [reflexivity | discriminate]).
  - eexists; (split; [reflexivity | discriminate]).
Qed.

Lemma scrobbleTrack_counters (reply : settled json) (sk artist track : jsval)
    (timestamp : Z) (c c0 : counters) :
  completionOf (scrobbleTrack localeCompare vs reply sk artist track timestamp) c
  = completionOf (scrobbleTrack localeCompare vs reply sk artist track timestamp) c0.
Proof.
  unfold completionOf, scrobbleTrack, bind. rewrite !lastFmRequest_run.
  destruct reply as [data | message]; [destruct (truthy (j_error data)) |]; reflexivity.
Qed.

Lemma processRow_unresolved (sk : jsval) (n i : nat) (r : record) (c : counters) :
  resolves vs r = false ->
  processRow localeCompare w vs sk n i r c
  = ([Stderr (lineError i)], Counters (successCount c) (S (errorCount c)), Normal tt).
Proof.
  unfold resolves. intros H. unfold processRow. cbv zeta.
  rewrite <- negb_andb, H. reflexivity.
Qed.

Lemma processRow_submitted (sk : jsval) (n i : nat) (r : record) (c : counters) (data : json) :
  resolves vs r = true ->
  submissionOf localeCompare w vs sk n i r = Normal data ->
  processRow localeCompare w vs sk n i r c
  = ([ rowRequest localeCompare w vs sk n i r;
       Stdout (scrobbledLine (resolveArtist (header vs) r) (resolveTrack (header vs) r));
       SetTimeout 200 ],
     Counters (S (successCount c)) (errorCount c), Normal tt).
Proof.
  unfold resolves, submissionOf. intros H Hsub.
  rewrite (scrobbleTrack_counters _ _ _ _ _ _ c) in Hsub.
  unfold processRow. cbv zeta. rewrite <- negb_andb, H. cbn [negb].
  unfold try_catch at 1. unfold bind at 1.
  destruct (scrobbleTrack_trace (scrobble_reply w i) sk (resolveArtist (header vs) r)
              (resolveTrack (header vs) r) (timestampFor w n i) c) as [res [Heq _]].
  unfold completionOf in Hsub. rewrite Heq in Hsub |- *. cbn [snd] in Hsub. subst res.
  reflexivity.
Qed.

Lemma processRow_failed (sk : jsval) (n i : nat) (r : record) (c : counters)
    (message : string) :
  resolves vs r = true ->
  submissionOf localeCompare w vs sk n i r = Throw message ->
  processRow localeCompare w vs sk n i r c
  = ([ rowRequest localeCompare w vs sk n i r;
       Stderr (scrobbleErrorLine (resolveArtist (header vs) r)
                 (resolveTrack (header vs) r) message) ],
     Counters (successCount c) (S (errorCount c)), Normal tt).
Proof.
  unfold resolves, submissionOf. intros H Hsub.
  rewrite (scrobbleTrack_counters _ _ _ _ _ _ c) in Hsub.
  unfold processRow. cbv zeta. rewrite <- negb_andb, H. cbn [negb].
  unfold try_catch at 1. unfold bind at 1.
  destruct (scrobbleTrack_trace (scrobble_reply w i) sk (resolveArtist (header vs) r)
              (resolveTrack (header vs) r) (timestampFor w n i) c) as [res [Heq _]].
  unfold completionOf in Hsub. rewrite Heq in Hsub |- *. cbn [snd] in Hsub. subst res.
  reflexivity.
Qed.

Lemma submissionOf_not_exit (sk : jsval) (n i : nat) (r : record) (code : Z) :
  submissionOf localeCompare w vs sk n i r <> Exit code.
Proof.
  unfold submissionOf, completionOf.
  destruct (scrobbleTrack_trace (scrobble_reply w i) sk (resolveArtist (header vs) r)
              (resolveTrack (header vs) r) (timestampFor w n i) (Counters 0 0))
    as [res [Heq Hne]].
  rewrite Heq. apply Hne.
Qed.

(** The three ways a row ends; the row itself never throws. *)
Lemma processRow_cases (sk : jsval) (n i : nat) (r : record) (c : counters) :
  (resolves vs r = false /\
   processRow localeCompare w vs sk n i r c
   = ([Stderr (lineError i)], Counters (successCount c) (S (errorCount c)), Normal tt))
  \/
  (resolves vs r = true /\
   (exists data, submissionOf localeCompare w vs sk n i r = Normal data) /\
   processRow localeCompare w vs sk n i r c
   = ([ rowRequest localeCompare w vs sk n i r;
        Stdout (scrobbledLine (resolveArtist (header vs) r) (resolveTrack (header vs) r));
        SetTimeout 200 ],
      Counters (S (successCount c)) (errorCount c), Normal tt))
  \/
  (resolves vs r = true /\
   exists message,
     submissionOf localeCompare w vs sk n i r = Throw message /\
     processRow localeCompare w vs sk n i r c
     = ([ rowRequest localeCompare w vs sk n i r;
          Stderr (scrobbleErrorLine (resolveArtist (header vs) r)
                    (resolveTrack (header vs) r) message) ],
        Counters (successCount c) (S (errorCount c)), Normal tt)).
Proof.
  destruct (resolves vs r) eqn:Hres.
  - destruct (submissionOf localeCompare w vs sk n i r) as [data | message | code] eqn:Hsub.
    + right; left. repeat split; eauto using processRow_submitted.
    + right; right. split; [reflexivity |]. eauto using processRow_failed.
    + exfalso. eapply submissionOf_not_exit, Hsub.
  - left. split; [reflexivity |]. now apply processRow_unresolved.
Qed.

Lemma loop_cons (sk : jsval) (n i : nat) (r : record) (rest : list record) (c : counters) :
  loop localeCompare w vs sk n i (r :: rest) c
  = let '(t1, c1, _) := processRow localeCompare w vs sk n i r c in
    let '(t2, c2, res) := loop localeCompare w vs sk n (S i) rest c1 in
    (t1 ++ t2, c2, res).
Proof.
  cbn [loop]. unfold bind at 1.
  destruct (processRow_cases sk n i r c) as [[_ H] | [[_ [_ H]] | [_ [m [_ H]]]]];
    rewrite H; reflexivity.
Qed.

Lemma isScrobble_rowRequest (sk : jsval) (n i : nat) (r : record) :
  isScrobble (rowRequest localeCompare w vs sk n i r) = true.
Proof. reflexivity. Qed.

Lemma isAuth_rowRequest (sk : jsval) (n i : nat) (r : record) :
  isAuth (rowRequest localeCompare w vs sk n i r) = false.
Proof. reflexivity. Qed.

Lemma loop_normal (sk : jsval) (n : nat) (rest : list record) :
  forall i c, completionOf (loop localeCompare w vs sk n i rest) c = Normal tt.
Proof.
  unfold completionOf.
  induction rest as [| r rest IH]; intros i c; [reflexivity |].
  rewrite loop_cons.
  destruct (processRow_cases sk n i r c) as [[_ H] | [[_ [_ H]] | [_ [m [_ H]]]]];
    rewrite H;
    match goal with
    | |- context [loop _ _ _ _ _ ?j _ ?c1] =>
        specialize (IH j c1);
        destruct (loop localeCompare w vs sk n j rest c1) as [[t2 c2] res]
    end; exact IH.
Qed.

Lemma loop_counters (sk : jsval) (n : nat) (rest : list record) :
  forall i c,
    let c' := countersOf (loop localeCompare w vs sk n i rest) c in
    (successCount c' + errorCount c'
     = successCount c + errorCount c + List.length rest)%nat.
Proof.
  unfold countersOf.
  induction rest as [| r rest IH]; intros i c; cbv zeta; [cbn; lia |].
  rewrite loop_cons.
  destruct (processRow_cases sk n i r c) as [[_ H] | [[_ [_ H]] | [_ [m [_ H]]]]];
    rewrite H;
    match goal with
    | |- context [loop _ _ _ _ _ ?j _ ?c1] =>
        specialize (IH j c1);
        destruct (loop localeCompare w vs sk n j rest c1) as [[t2 c2] res]
    end; cbn in IH |- *; lia.
Qed.

Lemma loop_scrobbles (sk : jsval) (n : nat) (rest : list record) :
  forall i c,
    List.filter isScrobble (traceOf (loop localeCompare w vs sk n i rest) c)
    = rowRequests localeCompare w vs sk n i rest.
Proof.
  unfold traceOf.
  induction rest as [| r rest IH]; intros i c; [reflexivity |].
  rewrite loop_cons. cbn [rowRequests].
  destruct (processRow_cases sk n i r c) as [[Hr H] | [[Hr [_ H]] | [Hr [m [_ H]]]]];
    rewrite H, Hr;
    match goal with
    | |- context [loop _ _ _ _ _ ?j _ ?c1] =>
        specialize (IH j c1);
        destruct (loop localeCompare w vs sk n j rest c1) as [[t2 c2] res]
    end; cbn [fst] in IH |- *; rewrite List.filter_app, IH; reflexivity.
Qed.

Lemma loop_no_auth (sk : jsval) (n : nat) (rest : list record) :
  forall i c,
    List.filter isAuth (traceOf (loop localeCompare w vs sk n i rest) c) = [].
Proof.
  unfold traceOf.
  induction rest as [| r rest IH]; intros i c; [reflexivity |].
  rewrite loop_cons.
  destruct (processRow_cases sk n i r c) as [[Hr H] | [[Hr [_ H]] | [Hr [m [_ H]]]]];
    rewrite H;
    match goal with
    | |- context [loop _ _ _ _ _ ?j _ ?c1] =>
        specialize (IH j c1);
        destruct (loop localeCompare w vs sk n j rest c1) as [[t2 c2] res]
    end; cbn [fst] in IH |- *; rewrite List.filter_app, IH; reflexivity.
Qed.

Lemma loop_pauses (sk : jsval) (n : nat) (rest : list record) :
  forall i c,
    let t := traceOf (loop localeCompare w vs sk n i rest) c in
    let c' := countersOf (loop localeCompare w vs sk n i rest) c in
    List.filter isPause t
    = repeat (SetTimeout 200) (successCount c' - successCount c) /\
    (successCount c <= successCount c')%nat.
Proof.
  unfold traceOf, countersOf.
  induction rest as [| r rest IH]; intros i c; cbv zeta.
  { cbn. rewrite Nat.sub_diag. split; [reflexivity | lia]. }
  rewrite loop_cons.
  destruct (processRow_cases sk n i r c) as [[Hr H] | [[Hr [_ H]] | [Hr [m [_ H]]]]];
    rewrite H;
    match goal with
    | |- context [loop _ _ _ _ _ ?j _ ?c1] =>
        specialize (IH j c1);
        destruct (loop localeCompare w vs sk n j rest c1) as [[t2 c2] res]
    end; cbn [fst snd successCount errorCount] in IH |- *;
    destruct IH as [IH Hle]; rewrite List.filter_app, IH.
  - split; [reflexivity | lia].
  - split; [| lia].
    replace (successCount c2 - successCount c)%nat
      with (S (successCount c2 - S (successCount c))) by lia.
    reflexivity.
  - split; [reflexivity | lia].
Qed.

End RowFacts.

(* ===================================================================== *)
(** * Properties of the top-level script                                  *)
(* ===================================================================== *)

Section ScriptFacts.

Variable localeCompare : string -> string -> Z.
Variable w : world.
Variable vs : values.
Variable positionals : list string.

Lemma checkRequired_cases (opts : list (string * option_config)) (c : counters) :
  (Forall (fun pc => required (snd pc) = true -> value_truthy vs (fst pc) = true) opts /\
   checkRequired vs opts c = ([], c, Normal tt))
  \/
  (exists param config,
     In (param, config) opts /\ required config = true /\
     value_truthy vs param = false /\
     checkRequired vs opts c
     = ([Stderr ("Error: " +:+ param +:+ " is required" +:+ nl)], c, Exit 1)).
Proof.
  induction opts as [| [param config] opts IH].
  - left. split; [constructor | reflexivity].
  - cbn [checkRequired].
    destruct (required config) eqn:Hreq; cbn [andb].
    + destruct (value_truthy vs param) eqn:Hval; cbn [negb].
      * destruct IH as [[Hall Hrun] | (p & cfg & Hin & Hr & Hv & Hrun)].
        -- left. split; [constructor; auto | exact Hrun].
        -- right. exists p, cfg. repeat split; auto. now right.
      * right. exists param, config. repeat split; auto. now left.
    + destruct IH as [[Hall Hrun] | (p & cfg & Hin & Hr & Hv & Hrun)].
      * left. split; [constructor; [cbn; congruence | exact Hall] | exact Hrun].
      * right. exists p, cfg. repeat split; auto. now right.
Qed.

Lemma checkRequired_accepted (c : counters) :
  argumentsAccepted vs -> checkRequired vs (entries options) c = ([], c, Normal tt).
Proof.
  intros [_ Hacc].
  destruct (checkRequired_cases (entries options) c)
    as [[_ Hrun] | (p & cfg & Hin & Hr & Hv & _)]; [exact Hrun |].
  rewrite (Hacc p cfg Hin Hr) in Hv. discriminate.
Qed.

Lemma argumentsAccepted_password :
  argumentsAccepted vs -> exists pw, password vs = Some pw.
Proof.
  intros [_ Hacc].
  specialize (Hacc "password" (OptionConfig "string" "p" None "Last.fm password" true)).
  destruct (password vs) as [pw |] eqn:Hpw; [eauto |].
  assert (Hin : In ("password", OptionConfig "string" "p" None "Last.fm password" true)
                   options) by (cbn; tauto).
  specialize (Hacc Hin eq_refl). unfold value_truthy in Hacc. cbn in Hacc.
  rewrite Hpw in Hacc. discriminate.
Qed.

(** [getAuthToken] leaves the counters alone, never exits, and sends at
    most one request, the [auth.getMobileSession] one. *)
Lemma getAuthToken_run (c : counters) :
  getAuthToken localeCompare w vs c
  = (traceOf (getAuthToken localeCompare w vs) start, c,
     completionOf (getAuthToken localeCompare w vs) start)
  /\ (forall code, completionOf (getAuthToken localeCompare w vs) start <> Exit code)
  /\ ((password vs = None /\ traceOf (getAuthToken localeCompare w vs) start = [])
      \/ exists request,
           traceOf (getAuthToken localeCompare w vs) start = [request] /\
           isAuth request = true /\ isScrobble request = false /\
           isPause request = false).
Proof.
  unfold traceOf, completionOf, getAuthToken.
  destruct (password vs) as [pw |].
  - unfold bind. rewrite !lastFmRequest_run.
    destruct (auth_reply w) as [data | message].
    + destruct (truthy (j_error data)).
      * repeat split; [discriminate |]. right. eexists. repeat split.
      * destruct (j_session data);
          (repeat split; [discriminate |]; right; eexists; repeat split).
    + repeat split; [discriminate |]. right. eexists. repeat split.
  - repeat split; [discriminate |]. left. split; reflexivity.
Qed.

Lemma readInput_run (c : counters) :
  readInput w positionals c
  = (traceOf (readInput w positionals) start, c,
     completionOf (readInput w positionals) start)
  /\ (forall code, completionOf (readInput w positionals) start <> Exit code)
  /\ Forall (fun e => isInputRead e = true) (traceOf (readInput w positionals) start).
Proof.
  unfold traceOf, completionOf, readInput.
  destruct positionals as [| path rest].
  - unfold bind, emit, await. destruct (stdin w);
      (repeat split; [discriminate | repeat constructor]).
  - unfold bind, emit, await. destruct (read_file w path);
      (repeat split; [discriminate | repeat constructor]).
Qed.

Lemma parseCsv_run (csvData : string) (c : counters) :
  parseCsv w vs csvData c
  = ([], c,
     match csv_parse w (delimiter vs) (header vs) csvData with
     | Fulfilled records => Normal records
     | Rejected message => Throw message
     end).
Proof. unfold parseCsv, await. destruct (csv_parse w _ _ _); reflexivity. Qed.

Lemma loop_run (sk : jsval) (n i : nat) (rest : list record) (c : counters) :
  loop localeCompare w vs sk n i rest c
  = (traceOf (loop localeCompare w vs sk n i rest) c,
     countersOf (loop localeCompare w vs sk n i rest) c, Normal tt).
Proof.
  pose proof (loop_normal localeCompare w vs sk n rest i c) as H.
  unfold traceOf, countersOf, completionOf in *.
  destruct (loop localeCompare w vs sk n i rest c) as [[t c'] res].
  cbn in *. now subst.
Qed.

Lemma mainBlock_auth_failed (message : string) :
  completionOf (getAuthToken localeCompare w vs) start = Throw message ->
  mainBlock localeCompare w vs positionals start
  = (authLine :: traceOf (getAuthToken localeCompare w vs) start, start, Throw message).
Proof.
  intros Hauth. unfold mainBlock.
  unfold bind at 1. unfold emit at 1. unfold bind at 1.
  destruct (getAuthToken_run start) as [-> _]. rewrite Hauth. reflexivity.
Qed.

Lemma mainBlock_read_failed (sk : jsval) (message : string) :
  completionOf (getAuthToken localeCompare w vs) start = Normal sk ->
  completionOf (readInput w positionals) start = Throw message ->
  mainBlock localeCompare w vs positionals start
  = (authLine :: traceOf (getAuthToken localeCompare w vs) start
       ++ authenticatedLine :: traceOf (readInput w positionals) start,
     start, Throw message).
Proof.
  intros Hauth Hread. unfold mainBlock.
  unfold bind at 1. unfold emit at 1. unfold bind at 1.
  destruct (getAuthToken_run start) as [-> _]. rewrite Hauth.
  unfold bind at 1. unfold emit at 1. unfold bind at 1.
  destruct (readInput_run start) as [-> _]. rewrite Hread. reflexivity.
Qed.

Lemma mainBlock_parse_failed (sk : jsval) (csvData message : string) :
  completionOf (getAuthToken localeCompare w vs) start = Normal sk ->
  completionOf (readInput w positionals) start = Normal csvData ->
  csv_parse w (delimiter vs) (header vs) csvData = Rejected message ->
  mainBlock localeCompare w vs positionals start
  = (authLine :: traceOf (getAuthToken localeCompare w vs) start
       ++ authenticatedLine :: traceOf (readInput w positionals) start,
     start, Throw message).
Proof.
  intros Hauth Hread Hparse. unfold mainBlock.
  unfold bind at 1. unfold emit at 1. unfold bind at 1.
  destruct (getAuthToken_run start) as [-> _]. rewrite Hauth.
  unfold bind at 1. unfold emit at 1. unfold bind at 1.
  destruct (readInput_run start) as [-> _]. rewrite Hread.
  unfold bind at 1. rewrite parseCsv_run, Hparse.
  cbn [app]. rewrite app_nil_r. reflexivity.
Qed.

Lemma mainBlock_completed (sk : jsval) (csvData : string) (records : list record) :
  completionOf (getAuthToken localeCompare w vs) start = Normal sk ->
  completionOf (readInput w positionals) start = Normal csvData ->
  csv_parse w (delimiter vs) (header vs) csvData = Fulfilled records ->
  let n := List.length records in
  let body := loop localeCompare w vs sk n 0 records in
  mainBlock localeCompare w vs positionals start
  = (authLine :: traceOf (getAuthToken localeCompare w vs) start
       ++ authenticatedLine :: traceOf (readInput w positionals) start
       ++ Stdout ("Found " +:+ pretty n +:+ " tracks to scrobble" +:+ nl)
       :: traceOf body start
       ++ [Stdout (summaryLine (successCount (countersOf body start))
                               (errorCount (countersOf body start)))],
     countersOf body start, Normal tt).
Proof.
  intros Hauth Hread Hparse. cbv zeta. unfold mainBlock.
  unfold bind at 1. unfold emit at 1. unfold bind at 1.
  destruct (getAuthToken_run start) as [-> _]. rewrite Hauth.
  unfold bind at 1. unfold emit at 1. unfold bind at 1.
  destruct (readInput_run start) as [-> _]. rewrite Hread.
  unfold bind at 1. rewrite parseCsv_run, Hparse.
  unfold bind at 1. unfold emit at 1.
  unfold bind at 1. unfold putCounters at 1.
  unfold bind at 1. rewrite loop_run.
  unfold bind at 1. unfold getCounters at 1. unfold emit at 1.
  reflexivity.
Qed.

End ScriptFacts.

Section RunFacts.

Variable localeCompare : string -> string -> Z.
Variable w : world.
Variable vs : values.
Variable positionals : list string.

Lemma run_help :
  help vs = true ->
  run localeCompare w vs positionals = ([Stdout helpText], Exit 0).
Proof.
  intros Hhelp. unfold run, script. rewrite Hhelp. reflexivity.
Qed.

Lemma run_missing (param : string) (config : option_config) :
  help vs = false ->
  In (param, config) options -> required config = true ->
  value_truthy vs param = false ->
  exists missing,
    run localeCompare w vs positionals
    = ([Stderr ("Error: " +:+ missing +:+ " is required" +:+ nl)], Exit 1).
Proof.
  intros Hhelp Hin Hreq Hval. unfold run, script. rewrite Hhelp.
  unfold bind at 1. unfold ret at 1. unfold bind at 1.
  destruct (checkRequired_cases vs (entries options) start)
    as [[Hall _] | (p & cfg & _ & _ & _ & Hrun)].
  - rewrite Forall_forall in Hall. apply list_elem_of_In in Hin.
    specialize (Hall _ Hin Hreq). cbn in Hall. congruence.
  - exists p. fold start. rewrite Hrun. reflexivity.
Qed.

(** Past both checks the run is the top-level [try]/[catch]. *)
Lemma run_main :
  argumentsAccepted vs ->
  run localeCompare w vs positionals
  = match mainBlock localeCompare w vs positionals start with
    | (t, _, Throw message) =>
        (t ++ [Stderr ("Error: " +:+ message +:+ nl)],
         if debug vs then Throw message else Exit 1)
    | (t, _, r) => (t, r)
    end.
Proof.
  intros Hacc. unfold run, script. rewrite (proj1 Hacc).
  unfold bind at 1. unfold ret at 1. unfold bind at 1. fold start.
  rewrite (checkRequired_accepted vs start Hacc).
  unfold try_catch.
  destruct (mainBlock localeCompare w vs positionals start) as [[t c] [a | message | code]];
    try reflexivity.
  unfold bind, emit. destruct (debug vs); reflexivity.
Qed.

End RunFacts.

(* ===================================================================== *)
(** * The code-unit comparator                                            *)
(* ===================================================================== *)

Lemma codeUnitCompare_le (a b : string) : codeUnitCompare a b <= 0 <-> String.le a b.
Proof.
  unfold codeUnitCompare, String.le, String.leb.
  destruct (String.compare a b); cbn; split; intros H; try lia; try exact I;
    contradiction.
Qed.

Lemma codeUnitCompare_consistent (keys : list string) :
  consistentOn codeUnitCompare keys.
Proof.
  split.
  - intros a b _ _. unfold codeUnitCompare.
    rewrite (String.compare_antisym b a).
    destruct (String.compare a b); cbn; lia.
  - intros a b c _ _ _. rewrite !codeUnitCompare_le. apply transitivity.
Qed.


(* ===================================================================== *)
(** * The signature engine                                                *)
(* ===================================================================== *)

(** The request signature of the mobile-session call, checked against an
    independent MD5 of the sorted text. *)
Example createSignature_auth_request :
  createSignature codeUnitCompare
    [ ("api_key", JStr "k"); ("method", JStr "auth.getMobileSession");
      ("username", JStr "u"); ("authToken", JStr "94413a04343d511d3b715e775e30c408") ]
    (JStr "s")
  = "e07f14c4733cd3a59d83d33b2f30ce99".
Proof. vm_compute. reflexivity. Qed.

(** C1.  For every parameter mapping [P] and secret [secret], with
    [localeCompare] ordering the keys of [P], the signature is the lowercase
    hexadecimal rendering (32 digits) of the 16-byte MD5 digest of the bytes
    of the text made of the entries of [P] sorted ascending by key, each key
    directly followed by its value, with [secret] appended. *)
Theorem createSignature_md5_of_sorted_pairs
    (localeCompare : string -> string -> Z) (P : object jsval) (secret : string) :
  consistentOn localeCompare (map fst P) ->
  exists L : list (string * jsval),
    Permutation (entries P) L /\
    StronglySorted (ascending localeCompare) L /\
    createSignature localeCompare P (JStr secret)
    = hex (MD5.digest (bytes_of_string (keyValueText L +:+ secret))) /\
    List.length (MD5.digest (bytes_of_string (keyValueText L +:+ secret))) = 16%nat /\
    String.length (createSignature localeCompare P (JStr secret)) = 32%nat /\
    forallb is_lower_hex
      (list_ascii_of_string (createSignature localeCompare P (JStr secret))) = true.
Proof.
  intros Hcons.
  exists (sort (byKey localeCompare) (entries P)).
  split; [apply sort_perm |].
  split; [now apply entries_sorted |].
  rewrite createSignature_text. cbn [elementText ToString].
  split; [reflexivity |].
  split; [apply digest_length |].
  split; [apply md5_length | apply md5_lower].
Qed.

Lemma createSignature_md5_of_sorted_pairs_witness :
  exists L : list (string * jsval),
    Permutation
      (entries [ ("method", JStr "track.scrobble"); ("api_key", JStr "k");
                 ("timestamp", JNum 1699999910) ]) L /\
    StronglySorted (ascending codeUnitCompare) L /\
    createSignature codeUnitCompare
      [ ("method", JStr "track.scrobble"); ("api_key", JStr "k");
        ("timestamp", JNum 1699999910) ] (JStr "s")
    = hex (MD5.digest (bytes_of_string (keyValueText L +:+ "s"))) /\
    List.length (MD5.digest (bytes_of_string (keyValueText L +:+ "s"))) = 16%nat /\
    String.length
      (createSignature codeUnitCompare
         [ ("method", JStr "track.scrobble"); ("api_key", JStr "k");
           ("timestamp", JNum 1699999910) ] (JStr "s")) = 32%nat /\
    forallb is_lower_hex
      (list_ascii_of_string
         (createSignature codeUnitCompare
            [ ("method", JStr "track.scrobble"); ("api_key", JStr "k");
              ("timestamp", JNum 1699999910) ] (JStr "s"))) = true.
Proof.
  apply (createSignature_md5_of_sorted_pairs codeUnitCompare
           [ ("method", JStr "track.scrobble"); ("api_key", JStr "k");
             ("timestamp", JNum 1699999910) ] "s").
  apply codeUnitCompare_consistent.
Defined.



(* ===================================================================== *)
(** * Exit codes                                                          *)
(* ===================================================================== *)

Section ExitFacts.

Variable localeCompare : string -> string -> Z.
Variable w : world.
Variable vs : values.
Variable positionals : list string.

(** Past the argument checks a run either reaches the loop or fails at
    top level. *)
Lemma main_cases :
  (exists sk records, reachesLoop localeCompare w vs positionals sk records)
  \/ (exists message, topLevelFailure localeCompare w vs positionals message).
Proof.
  unfold reachesLoop, topLevelFailure.
  destruct (getAuthToken_run localeCompare w vs start) as (_ & Hnoexit & _).
  destruct (readInput_run w positionals start) as (_ & Hnoexit' & _).
  destruct (completionOf (getAuthToken localeCompare w vs) start)
    as [sk | message | code]; [| right; eauto | now destruct (Hnoexit code)].
  destruct (completionOf (readInput w positionals) start)
    as [csvData | message | code]; [| right; eauto 6 | now destruct (Hnoexit' code)].
  destruct (csv_parse w (delimiter vs) (header vs) csvData) as [records | message] eqn:Hp.
  - left. exists sk, records. eauto.
  - right. exists message. right; right. eauto.
Qed.

Lemma run_top_level_failure (message : string) :
  argumentsAccepted vs ->
  topLevelFailure localeCompare w vs positionals message ->
  snd (run localeCompare w vs positionals)
  = if debug vs then Throw message else Exit 1.
Proof.
  intros Hacc Hfail. rewrite run_main by assumption.
  destruct Hfail as [Ha | [(sk & Ha & Hr) | (sk & csvData & Ha & Hr & Hp)]].
  - now rewrite (mainBlock_auth_failed _ _ _ _ _ Ha).
  - now rewrite (mainBlock_read_failed _ _ _ _ _ _ Ha Hr).
  - now rewrite (mainBlock_parse_failed _ _ _ _ _ _ _ Ha Hr Hp).
Qed.

Lemma run_completed (sk : jsval) (records : list record) :
  argumentsAccepted vs ->
  reachesLoop localeCompare w vs positionals sk records ->
  snd (run localeCompare w vs positionals) = Normal tt.
Proof.
  intros Hacc (Ha & csvData & Hr & Hp). rewrite run_main by assumption.
  now rewrite (mainBlock_completed _ _ _ _ _ _ _ Ha Hr Hp).
Qed.

End ExitFacts.

(** C8.  The process exits with code 0 on [--help] and on normal completion
    (whatever the rows did); with code 1 when a required option has no
    truthy value, and, with debug off, on a top-level failure
    (authentication, read or parse); with debug on, a top-level failure is
    rethrown and the run ends in that uncaught error.  Past the argument
    checks there is no other case. *)
Theorem exit_codes
    (localeCompare : string -> string -> Z) (w : world) (vs : values)
    (positionals : list string) :
  let r := snd (run localeCompare w vs positionals) in
  (help vs = true -> r = Exit 0 /\ exitCode r = Some 0) /\
  (help vs = false ->
   (exists param config,
      In (param, config) options /\ required config = true /\
      value_truthy vs param = false) ->
   r = Exit 1 /\ exitCode r = Some 1) /\
  (argumentsAccepted vs ->
   (forall sk records,
      reachesLoop localeCompare w vs positionals sk records ->
      r = Normal tt /\ exitCode r = Some 0) /\
   (forall message,
      topLevelFailure localeCompare w vs positionals message ->
      (debug vs = false -> r = Exit 1 /\ exitCode r = Some 1) /\
      (debug vs = true -> r = Throw message /\ exitCode r = None)) /\
   ((exists sk records, reachesLoop localeCompare w vs positionals sk records)
    \/ (exists message, topLevelFailure localeCompare w vs positionals message))).
Proof.
  cbv zeta. split; [| split].
  - intros Hhelp. rewrite run_help by assumption. split; reflexivity.
  - intros Hhelp (param & config & Hin & Hreq & Hval).
    destruct (run_missing localeCompare w vs positionals param config Hhelp Hin Hreq Hval)
      as [missing ->].
    split; reflexivity.
  - intros Hacc. split; [| split].
    + intros sk records Hloop.
      rewrite (run_completed _ _ _ _ sk records Hacc Hloop). split; reflexivity.
    + intros message Hfail.
      rewrite (run_top_level_failure _ _ _ _ message Hacc Hfail).
      split; intros ->; split; reflexivity.
    + apply main_cases.
Qed.

Lemma mockValues_accepted (hdr dbg : bool) : argumentsAccepted (mockValues hdr dbg).
Proof.
  split; [reflexivity |].
  intros param config Hin Hreq. cbn in Hin.
  repeat (destruct Hin as [Hin | Hin];
          [inversion Hin; subst; first [reflexivity | discriminate] |]).
  contradiction.
Qed.

Lemma exit_codes_witness :
  snd (run codeUnitCompare
         (mockWorld (errorReply 4 "Invalid authentication token supplied")
                    (fun _ => acceptedReply) threeRows)
         (mockValues false false) ["tracks.csv"]) = Exit 1
  /\ exitCode
       (snd (run codeUnitCompare
               (mockWorld (errorReply 4 "Invalid authentication token supplied")
                          (fun _ => acceptedReply) threeRows)
               (mockValues false false) ["tracks.csv"])) = Some 1.
Proof.
  destruct (exit_codes codeUnitCompare
              (mockWorld (errorReply 4 "Invalid authentication token supplied")
                         (fun _ => acceptedReply) threeRows)
              (mockValues false false) ["tracks.csv"]) as (_ & _ & Hmain).
  destruct (Hmain (mockValues_accepted false false)) as (_ & Hfail & _).
  apply (Hfail "Last.fm authentication error: Invalid authentication token supplied").
  - left. vm_compute. reflexivity.
  - reflexivity.
Defined.

(* ===================================================================== *)
(** * The order of requests in a run                                      *)
(* ===================================================================== *)

Lemma filter_nil_app {X} (p : X -> bool) (l1 l2 : list X) :
  List.filter p (l1 ++ l2) = [] -> List.filter p l1 = [] /\ List.filter p l2 = [].
Proof. rewrite List.filter_app. apply app_eq_nil. Qed.

Lemma split_after_prefix {X} (p : X -> bool) (A B pre post : list X) (e : X) :
  A ++ B = pre ++ e :: post -> p e = true -> List.filter p A = [] ->
  exists pre', pre = A ++ pre' /\ B = pre' ++ e :: post.
Proof.
  revert pre. induction A as [| a A IH]; intros pre Heq He HA.
  - exists pre. split; [reflexivity | exact Heq].
  - cbn [List.filter] in HA. destruct (p a) eqn:Hpa; [discriminate |].
    destruct pre as [| x pre]; cbn [app] in Heq.
    + injection Heq as Hx _. subst a. congruence.
    + injection Heq as Hx Heq. subst x.
      destruct (IH pre Heq He HA) as (pre' & -> & HB).
      exists pre'. split; [reflexivity | exact HB].
Qed.

Lemma reads_filters (l : list event) :
  Forall (fun e => isInputRead e = true) l ->
  List.filter isAuth l = [] /\ List.filter isScrobble l = [].
Proof.
  induction 1 as [| e l He _ [IH1 IH2]]; [split; reflexivity |].
  destruct e; try discriminate He; cbn; auto.
Qed.

Section OrderFacts.

Variable localeCompare : string -> string -> Z.
Variable w : world.
Variable vs : values.
Variable positionals : list string.

Lemma authTrace_filters :
  List.filter isScrobble (traceOf (getAuthToken localeCompare w vs) start) = [] /\
  (List.length (List.filter isAuth (traceOf (getAuthToken localeCompare w vs) start)) <= 1)%nat /\
  (argumentsAccepted vs ->
   List.length (List.filter isAuth (traceOf (getAuthToken localeCompare w vs) start)) = 1%nat).
Proof.
  destruct (getAuthToken_run localeCompare w vs start)
    as (_ & _ & [[Hpw Ht] | (request & Ht & Ha & Hs & _)]); rewrite Ht.
  - repeat split; [cbn; lia |].
    intros Hacc. destruct (argumentsAccepted_password vs Hacc) as [pw Hpw'].
    congruence.
  - cbn [List.filter]. rewrite Ha, Hs. repeat split. cbn. lia.
Qed.

Lemma arguments_cases :
  help vs = true \/ argumentsAccepted vs \/
  (help vs = false /\
   exists param config,
     In (param, config) options /\ required config = true /\
     value_truthy vs param = false).
Proof.
  destruct (help vs) eqn:Hhelp; [now left | right].
  destruct (checkRequired_cases vs (entries options) start)
    as [[Hall _] | (p & cfg & Hin & Hr & Hv & _)].
  - left. split; [exact Hhelp |].
    intros param config Hin Hreq. rewrite Forall_forall in Hall.
    apply list_elem_of_In in Hin. exact (Hall _ Hin Hreq).
  - right. split; [reflexivity |]. eauto.
Qed.

(** Every trace is a prologue, the events of the loop, and an epilogue;
    requests to scrobble occur in the loop only, the authentication
    request in the prologue only. *)
Lemma run_trace_shape :
  exists pre loopT post,
    fst (run localeCompare w vs positionals) = pre ++ loopT ++ post /\
    List.filter isScrobble pre = [] /\
    List.filter isScrobble post = [] /\
    List.filter isAuth (loopT ++ post) = [] /\
    (List.length (List.filter isAuth pre) <= 1)%nat /\
    (argumentsAccepted vs -> List.length (List.filter isAuth pre) = 1%nat) /\
    (loopT <> [] ->
     List.length (List.filter isAuth pre) = 1%nat /\
     exists sk, completionOf (getAuthToken localeCompare w vs) start = Normal sk).
Proof.
  destruct authTrace_filters as (Hts & Hta & Hta1).
  destruct (readInput_run w positionals start) as (_ & _ & Hreads).
  apply reads_filters in Hreads. destruct Hreads as [Hra Hrs].
  destruct arguments_cases as [Hhelp | [Hacc | (Hhelp & p & cfg & Hin & Hr & Hv)]].
  - rewrite run_help by assumption.
    exists [Stdout helpText], [], []. cbn.
    repeat split; try lia; try congruence.
    intros [Hh _]. congruence.
  - pose proof (Hta1 Hacc) as Hone.
    rewrite run_main by assumption.
    destruct (main_cases localeCompare w vs positionals)
      as [(sk & records & Ha & csvData & Hrd & Hp)
         | (message & [Ha | [(sk & Ha & Hrd) | (sk & csvData & Ha & Hrd & Hp)]])].
    + rewrite (mainBlock_completed _ _ _ _ _ _ _ Ha Hrd Hp). cbv zeta. cbn [fst].
      eexists (_ :: traceOf (getAuthToken localeCompare w vs) start
                 ++ _ :: traceOf (readInput w positionals) start ++ [_]),
              (traceOf (loop localeCompare w vs sk (List.length records) 0 records) start),
              [_].
      split; [cbn [app]; repeat (rewrite <- app_assoc; cbn [app]); reflexivity |].
      simplify_filters.
      rewrite ?Hts, ?Hrs, ?Hra, ?loop_no_auth. cbn [app]. rewrite ?app_nil_r.
      repeat split; auto. eauto.
    + rewrite (mainBlock_auth_failed _ _ _ _ _ Ha). cbn [fst].
      eexists _, [], []. split; [rewrite !app_nil_r; reflexivity |].
      simplify_filters.
      rewrite ?Hts, ?Hrs, ?Hra. cbn [app]. rewrite ?app_nil_r.
      repeat split; auto. congruence.
    + rewrite (mainBlock_read_failed _ _ _ _ _ _ Ha Hrd). cbn [fst].
      eexists _, [], []. split; [rewrite !app_nil_r; reflexivity |].
      simplify_filters.
      rewrite ?Hts, ?Hrs, ?Hra. cbn [app]. rewrite ?app_nil_r.
      repeat split; auto. congruence.
    + rewrite (mainBlock_parse_failed _ _ _ _ _ _ _ Ha Hrd Hp). cbn [fst].
      eexists _, [], []. split; [rewrite !app_nil_r; reflexivity |].
      simplify_filters.
      rewrite ?Hts, ?Hrs, ?Hra. cbn [app]. rewrite ?app_nil_r.
      repeat split; auto. congruence.
  - destruct (run_missing localeCompare w vs positionals p cfg Hhelp Hin Hr Hv)
      as [missing ->].
    eexists [_], [], []. split; [reflexivity |].
    simplify_filters. cbn [List.length].
    repeat split; try lia; try congruence.
    intros [_ Hacc]. rewrite (Hacc p cfg Hin Hr) in Hv. discriminate.
Qed.

End OrderFacts.

(** C3.  In every run the [auth.getMobileSession] request is sent at most
    once, and exactly once when the arguments are accepted; every
    [track.scrobble] request comes after it, and only when [getAuthToken]
    returned a session key.  When [getAuthToken] throws, the trace is the
    announcement, the authentication request and the error on stderr: the
    input is not read, no row is processed, nothing is submitted. *)
Theorem authentication_once_before_submissions
    (localeCompare : string -> string -> Z) (w : world) (vs : values)
    (positionals : list string) :
  let t := fst (run localeCompare w vs positionals) in
  let auth := getAuthToken localeCompare w vs in
  (List.length (List.filter isAuth t) <= 1)%nat /\
  (argumentsAccepted vs -> List.length (List.filter isAuth t) = 1%nat) /\
  (forall pre e post,
     t = pre ++ e :: post -> isScrobble e = true ->
     List.length (List.filter isAuth pre) = 1%nat /\
     exists sessionKey, completionOf auth start = Normal sessionKey) /\
  (forall message,
     argumentsAccepted vs -> completionOf auth start = Throw message ->
     t = Stdout ("Authenticating with Last.fm..." +:+ nl)
           :: traceOf auth start ++ [Stderr ("Error: " +:+ message +:+ nl)] /\
     List.filter isScrobble t = []).
Proof.
  cbv zeta.
  destruct (run_trace_shape localeCompare w vs positionals)
    as (pre0 & loopT & post0 & Ht & Hpre & Hpost & Hrest & Hle & Hone & Hloop).
  assert (Hauth : List.filter isAuth (fst (run localeCompare w vs positionals))
                  = List.filter isAuth pre0).
  { rewrite Ht, List.filter_app, Hrest. apply app_nil_r. }
  split; [now rewrite Hauth |].
  split; [intros Hacc; rewrite Hauth; auto |].
  split.
  - intros pre e post Hsplit He. rewrite Ht in Hsplit.
    destruct (split_after_prefix isScrobble _ _ _ _ _ Hsplit He Hpre)
      as (pre' & -> & Hin).
    assert (HloopT : loopT <> []).
    { intros ->. cbn [app] in Hin. rewrite Hin in Hpost.
      apply filter_nil_app in Hpost. destruct Hpost as [_ Hpost].
      cbn [List.filter] in Hpost. rewrite He in Hpost. discriminate. }
    destruct (Hloop HloopT) as [Hcount Hkey]. split; [| exact Hkey].
    rewrite Hin in Hrest. apply filter_nil_app in Hrest. destruct Hrest as [Hrest _].
    now rewrite List.filter_app, Hrest, app_nil_r.
  - intros message Hacc Hthrow.
    destruct (authTrace_filters localeCompare w vs) as (Hts & _ & _).
    assert (Hrun : fst (run localeCompare w vs positionals)
                   = Stdout ("Authenticating with Last.fm..." +:+ nl)
                       :: traceOf (getAuthToken localeCompare w vs) start
                       ++ [Stderr ("Error: " +:+ message +:+ nl)]).
    { rewrite run_main by assumption.
      now rewrite (mainBlock_auth_failed _ _ _ _ _ Hthrow). }
    split; [exact Hrun |].
    rewrite Hrun. simplify_filters. now rewrite Hts.
Qed.

Lemma authentication_once_before_submissions_witness :
  fst (run codeUnitCompare
         (mockWorld (errorReply 4 "Invalid authentication token supplied")
                    (fun _ => acceptedReply) threeRows)
         (mockValues false false) ["tracks.csv"])
  = Stdout ("Authenticating with Last.fm..." +:+ nl)
      :: traceOf (getAuthToken codeUnitCompare
                    (mockWorld (errorReply 4 "Invalid authentication token supplied")
                               (fun _ => acceptedReply) threeRows)
                    (mockValues false false)) start
      ++ [Stderr
            ("Error: "
             +:+ "Last.fm authentication error: Invalid authentication token supplied"
             +:+ nl)]
  /\ List.filter isScrobble
       (fst (run codeUnitCompare
               (mockWorld (errorReply 4 "Invalid authentication token supplied")
                          (fun _ => acceptedReply) threeRows)
               (mockValues false false) ["tracks.csv"])) = [].
Proof.
  destruct (authentication_once_before_submissions codeUnitCompare
              (mockWorld (errorReply 4 "Invalid authentication token supplied")
                         (fun _ => acceptedReply) threeRows)
              (mockValues false false) ["tracks.csv"]) as (_ & _ & _ & Hfail).
  apply Hfail.
  - apply mockValues_accepted.
  - vm_compute. reflexivity.
Defined.

(* ===================================================================== *)
(** * Resolving a record                                                  *)
(* ===================================================================== *)

Lemma or_else_truthy (a b : jsval) : truthy a = true -> or_else a b = a.
Proof. unfold or_else. now intros ->. Qed.

Lemma or_else_falsy (a b : jsval) : truthy a = false -> or_else a b = b.
Proof. unfold or_else. now intros ->. Qed.

Example plain_row_resolution :
  resolveArtist false (Fields (csvFields ","%char "Radiohead,Paranoid Android"))
  = JStr "Radiohead" /\
  resolveTrack false (Fields (csvFields ","%char "Radiohead,Paranoid Android"))
  = JStr "Paranoid Android".
Proof. split; reflexivity. Qed.

(** C5.  In header mode the resolved artist is the first truthy field among
    [artist], [Artist] and the resolved track the first truthy field among
    [track], [Track], [title], [Title], in that order; when none is truthy
    the resolved value is falsy.  With header row [Title,Artist] and data
    row [Paranoid Android,Radiohead] the artist is [Radiohead] and the track
    is [Paranoid Android]. *)
Theorem header_resolution_priority :
  (forall r before name after,
     ["artist"; "Artist"] = before ++ name :: after ->
     (forall earlier, In earlier before -> truthy (column r earlier) = false) ->
     truthy (column r name) = true ->
     resolveArtist true r = column r name) /\
  (forall r before name after,
     ["track"; "Track"; "title"; "Title"] = before ++ name :: after ->
     (forall earlier, In earlier before -> truthy (column r earlier) = false) ->
     truthy (column r name) = true ->
     resolveTrack true r = column r name) /\
  (forall r,
     (forall name, In name ["artist"; "Artist"] -> truthy (column r name) = false) ->
     truthy (resolveArtist true r) = false) /\
  (forall r,
     (forall name, In name ["track"; "Track"; "title"; "Title"] ->
                   truthy (column r name) = false) ->
     truthy (resolveTrack true r) = false) /\
  (let r := fromColumns (csvFields ","%char "Title,Artist")
                        (csvFields ","%char "Paranoid Android,Radiohead") in
   resolveArtist true r = JStr "Radiohead" /\
   resolveTrack true r = JStr "Paranoid Android").
Proof.
  split; [| split; [| split; [| split]]].
  - intros r before name after Hsplit Hbefore Hname.
    unfold resolveArtist.
    destruct before as [| b1 [| b2 [| b3 before]]]; cbn [app] in Hsplit;
      try (injection Hsplit as; subst).
    + now rewrite or_else_truthy.
    + rewrite or_else_falsy; [reflexivity | apply Hbefore; cbn; tauto].
    + destruct after; discriminate.
    + discriminate.
  - intros r before name after Hsplit Hbefore Hname.
    unfold resolveTrack.
    destruct before as [| b1 [| b2 [| b3 [| b4 [| b5 before]]]]]; cbn [app] in Hsplit;
      try (injection Hsplit as; subst); try discriminate.
    + now rewrite !(or_else_truthy (column r "track")) by assumption.
    + rewrite (or_else_falsy (column r "track")) by (apply Hbefore; cbn; tauto).
      now rewrite !(or_else_truthy (column r "Track")) by assumption.
    + rewrite (or_else_falsy (column r "track")) by (apply Hbefore; cbn; tauto).
      rewrite (or_else_falsy (column r "Track")) by (apply Hbefore; cbn; tauto).
      now rewrite !(or_else_truthy (column r "title")) by assumption.
    + rewrite (or_else_falsy (column r "track")) by (apply Hbefore; cbn; tauto).
      rewrite (or_else_falsy (column r "Track")) by (apply Hbefore; cbn; tauto).
      rewrite (or_else_falsy (column r "title")) by (apply Hbefore; cbn; tauto).
      reflexivity.
  - intros r Hnone. unfold resolveArtist.
    rewrite or_else_falsy by (apply Hnone; cbn; tauto).
    apply Hnone; cbn; tauto.
  - intros r Hnone. unfold resolveTrack.
    rewrite (or_else_falsy (column r "track")) by (apply Hnone; cbn; tauto).
    rewrite (or_else_falsy (column r "Track")) by (apply Hnone; cbn; tauto).
    rewrite (or_else_falsy (column r "title")) by (apply Hnone; cbn; tauto).
    apply Hnone; cbn; tauto.
  - cbv zeta. split; reflexivity.
Qed.

Lemma header_resolution_priority_witness :
  resolveTrack true
    (fromColumns (csvFields ","%char "Title,Artist")
                 (csvFields ","%char "Paranoid Android,Radiohead"))
  = column
      (fromColumns (csvFields ","%char "Title,Artist")
                   (csvFields ","%char "Paranoid Android,Radiohead"))
      "Title".
Proof.
  destruct header_resolution_priority as (_ & Htrack & _).
  apply (Htrack _ ["track"; "Track"; "title"] "Title" []).
  - reflexivity.
  - intros earlier Hin. cbn in Hin.
    repeat (destruct Hin as [<- | Hin]; [reflexivity |]). contradiction.
  - reflexivity.
Defined.

(* ===================================================================== *)
(** * The scrobble loop                                                   *)
(* ===================================================================== *)



(** C6.  A record whose resolved artist or track is falsy (absent or
    empty: in particular a one-column row without header) makes the loop
    write the error with the 1-based number [i + 1] to stderr, add one to
    the error counter, send nothing for the record, and go on with the
    next row. *)
Theorem resolution_failure_skips_row
    (localeCompare : string -> string -> Z) (w : world) (vs : values)
    (sessionKey : jsval) (n : nat) :
  (forall i r rest c,
     resolves vs r = false ->
     loop localeCompare w vs sessionKey n i (r :: rest) c
     = (let '(t, c', res) :=
          loop localeCompare w vs sessionKey n (S i) rest
               (Counters (successCount c) (S (errorCount c))) in
        (Stderr ("Error: Could not determine artist and track from line "
                 +:+ pretty (i + 1)%nat +:+ nl) :: t, c', res))) /\
  (forall r,
     resolves vs r = false <->
     truthy (resolveArtist (header vs) r) = false \/
     truthy (resolveTrack (header vs) r) = false) /\
  truthy JUndefined = false /\
  truthy (JStr EmptyString) = false /\
  (forall field, header vs = false -> resolves vs (Fields [field]) = false).
Proof.
  split; [| split; [| split; [| split]]].
  - intros i r rest c Hres.
    rewrite loop_cons, (processRow_unresolved _ _ _ _ _ _ _ _ Hres).
    destruct (loop localeCompare w vs sessionKey n (S i) rest _) as [[t c'] res].
    reflexivity.
  - intros r. unfold resolves. apply andb_false_iff.
  - reflexivity.
  - reflexivity.
  - intros field Hhdr. unfold resolves, resolveTrack. rewrite Hhdr.
    apply andb_false_iff. right. reflexivity.
Qed.

Lemma resolution_failure_skips_row_witness :
  loop codeUnitCompare (mockWorld (sessionReply "SESSION") (fun _ => acceptedReply) [])
       (mockValues false false) (JStr "SESSION") 1 0
       [Fields (csvFields ","%char "Radiohead")] start
  = ([Stderr ("Error: Could not determine artist and track from line 1" +:+ nl)],
     Counters 0 1, Normal tt).
Proof.
  destruct (resolution_failure_skips_row codeUnitCompare
              (mockWorld (sessionReply "SESSION") (fun _ => acceptedReply) [])
              (mockValues false false) (JStr "SESSION") 1) as (Hskip & _).
  apply (Hskip 0%nat (Fields (csvFields ","%char "Radiohead")) [] start).
  reflexivity.
Defined.

(** C7.  A failed submission does not end the loop: it writes the error,
    adds one to the error counter and the loop goes on with the next row;
    the loop always completes, and the submissions it sends are exactly the
    requests of the rows that resolve, whatever the replies.  With three
    rows and a remote error on the second, rows 1 and 3 are scrobbled and
    the run ends normally with the tally "2 successful, 1 failed". *)
Theorem submission_failure_isolated
    (localeCompare : string -> string -> Z) (w : world) (vs : values)
    (sessionKey : jsval) (n : nat) :
  (forall i r rest c message,
     resolves vs r = true ->
     submissionOf localeCompare w vs sessionKey n i r = Throw message ->
     loop localeCompare w vs sessionKey n i (r :: rest) c
     = (let '(t, c', res) :=
          loop localeCompare w vs sessionKey n (S i) rest
               (Counters (successCount c) (S (errorCount c))) in
        (rowRequest localeCompare w vs sessionKey n i r
           :: Stderr ("Error scrobbling " +:+ dquote
                      +:+ ToString (resolveArtist (header vs) r) +:+ " - "
                      +:+ ToString (resolveTrack (header vs) r) +:+ dquote
                      +:+ ": " +:+ message +:+ nl)
           :: t, c', res))) /\
  (forall i rest c,
     completionOf (loop localeCompare w vs sessionKey n i rest) c = Normal tt /\
     List.filter isScrobble (traceOf (loop localeCompare w vs sessionKey n i rest) c)
     = rowRequests localeCompare w vs sessionKey n i rest) /\
  (let '(t, r) :=
     run codeUnitCompare (mockWorld (sessionReply "SESSION") secondFails threeRows)
         (mockValues false false) ["tracks.csv"] in
   map (fun e => requestField e "track") (List.filter isScrobble t)
   = [Some "Paranoid Android"; Some "Roads"; Some "Teardrop"] /\
   List.filter isReport t
   = [ Stdout ("Authenticating with Last.fm..." +:+ nl);
       Stdout ("Authentication successful" +:+ nl);
       Stdout ("Found 3 tracks to scrobble" +:+ nl);
       Stdout ("Scrobbled: Radiohead - Paranoid Android" +:+ nl);
       Stderr ("Error scrobbling " +:+ dquote +:+ "Portishead - Roads" +:+ dquote
               +:+ ": Last.fm scrobbling error: Rate limit exceeded" +:+ nl);
       Stdout ("Scrobbled: Massive Attack - Teardrop" +:+ nl);
       Stdout (nl +:+ "Scrobbling complete: 2 successful, 1 failed" +:+ nl) ] /\
   r = Normal tt).
Proof.
  split; [| split].
  - intros i r rest c message Hres Hsub.
    rewrite loop_cons, (processRow_failed _ _ _ _ _ _ _ _ _ Hres Hsub).
    destruct (loop localeCompare w vs sessionKey n (S i) rest _) as [[t c'] res].
    reflexivity.
  - intros i rest c. split; [apply loop_normal | apply loop_scrobbles].
  - vm_compute. repeat split; reflexivity.
Qed.

Lemma submission_failure_isolated_witness :
  loop codeUnitCompare (mockWorld (sessionReply "SESSION") secondFails threeRows)
       (mockValues false false) (JStr "SESSION") 3 1 [Fields ["Portishead"; "Roads"]] start
  = ([ rowRequest codeUnitCompare (mockWorld (sessionReply "SESSION") secondFails threeRows)
         (mockValues false false) (JStr "SESSION") 3 1 (Fields ["Portishead"; "Roads"]);
       Stderr ("Error scrobbling " +:+ dquote +:+ "Portishead - Roads" +:+ dquote
               +:+ ": Last.fm scrobbling error: Rate limit exceeded" +:+ nl) ],
     Counters 0 1, Normal tt).
Proof.
  destruct (submission_failure_isolated codeUnitCompare
              (mockWorld (sessionReply "SESSION") secondFails threeRows)
              (mockValues false false) (JStr "SESSION") 3) as (Hfail & _).
  apply (Hfail 1%nat (Fields ["Portishead"; "Roads"]) [] start
               "Last.fm scrobbling error: Rate limit exceeded").
  - reflexivity.
  - vm_compute. reflexivity.
Defined.

(** C9.  A row that is submitted successfully ends with the success report
    followed by a pause of 200 milliseconds, its last event before the
    next row; a row that fails to resolve and a row whose submission fails
    end with the error report and no pause.  The trace of the loop is the
    rows' traces in order, so its pauses are as many as the successes, each of
    200 milliseconds. *)
Theorem pause_only_after_success
    (localeCompare : string -> string -> Z) (w : world) (vs : values)
    (sessionKey : jsval) (n : nat) :
  (forall i r c data,
     resolves vs r = true ->
     submissionOf localeCompare w vs sessionKey n i r = Normal data ->
     traceOf (processRow localeCompare w vs sessionKey n i r) c
     = [ rowRequest localeCompare w vs sessionKey n i r;
         Stdout ("Scrobbled: " +:+ ToString (resolveArtist (header vs) r) +:+ " - "
                 +:+ ToString (resolveTrack (header vs) r) +:+ nl);
         SetTimeout 200 ]) /\
  (forall i r c,
     resolves vs r = false ->
     traceOf (processRow localeCompare w vs sessionKey n i r) c
     = [Stderr ("Error: Could not determine artist and track from line "
                +:+ pretty (i + 1)%nat +:+ nl)]) /\
  (forall i r c message,
     resolves vs r = true ->
     submissionOf localeCompare w vs sessionKey n i r = Throw message ->
     traceOf (processRow localeCompare w vs sessionKey n i r) c
     = [ rowRequest localeCompare w vs sessionKey n i r;
         Stderr ("Error scrobbling " +:+ dquote
                 +:+ ToString (resolveArtist (header vs) r) +:+ " - "
                 +:+ ToString (resolveTrack (header vs) r) +:+ dquote
                 +:+ ": " +:+ message +:+ nl) ]) /\
  (forall i r rest c,
     traceOf (loop localeCompare w vs sessionKey n i (r :: rest)) c
     = traceOf (processRow localeCompare w vs sessionKey n i r) c
       ++ traceOf (loop localeCompare w vs sessionKey n (S i) rest)
            (countersOf (processRow localeCompare w vs sessionKey n i r) c)) /\
  (forall i rest c,
     List.filter isPause (traceOf (loop localeCompare w vs sessionKey n i rest) c)
     = repeat (SetTimeout 200)
         (successCount (countersOf (loop localeCompare w vs sessionKey n i rest) c)
          - successCount c)).
Proof.
  split; [| split; [| split; [| split]]].
  - intros i r c data Hres Hsub. unfold traceOf.
    now rewrite (processRow_submitted _ _ _ _ _ _ _ _ _ Hres Hsub).
  - intros i r c Hres. unfold traceOf.
    now rewrite (processRow_unresolved _ _ _ _ _ _ _ _ Hres).
  - intros i r c message Hres Hsub. unfold traceOf.
    now rewrite (processRow_failed _ _ _ _ _ _ _ _ _ Hres Hsub).
  - intros i r rest c. unfold traceOf, countersOf. rewrite loop_cons.
    destruct (processRow localeCompare w vs sessionKey n i r c) as [[t1 c1] res1].
    cbn [fst snd].
    destruct (loop localeCompare w vs sessionKey n (S i) rest c1) as [[t2 c2] res2].
    reflexivity.
  - intros i rest c. apply loop_pauses.
Qed.

Lemma pause_only_after_success_witness :
  traceOf (processRow codeUnitCompare
             (mockWorld (sessionReply "SESSION") secondFails threeRows)
             (mockValues false false) (JStr "SESSION") 3 1
             (Fields ["Portishead"; "Roads"])) start
  = [ rowRequest codeUnitCompare (mockWorld (sessionReply "SESSION") secondFails threeRows)
        (mockValues false false) (JStr "SESSION") 3 1 (Fields ["Portishead"; "Roads"]);
      Stderr ("Error scrobbling " +:+ dquote +:+ "Portishead - Roads" +:+ dquote
              +:+ ": " +:+ "Last.fm scrobbling error: Rate limit exceeded" +:+ nl) ].
Proof.
  destruct (pause_only_after_success codeUnitCompare
              (mockWorld (sessionReply "SESSION") secondFails threeRows)
              (mockValues false false) (JStr "SESSION") 3) as (_ & _ & Hfail & _).
  apply (Hfail 1%nat (Fields ["Portishead"; "Roads"]) start
               "Last.fm scrobbling error: Rate limit exceeded").
  - reflexivity.
  - vm_compute. reflexivity.
Defined.

(** C10.  Every record adds one to exactly one of the two counters; over
    the loop the counters grow by the number of records together; and in a
    run that reaches the loop with [N] parsed records the last event is the
    summary line, whose two totals add up to [N]. *)
Theorem counters_account_for_every_record
    (localeCompare : string -> string -> Z) (w : world) (vs : values)
    (positionals : list string) :
  (forall sessionKey n i r c,
     let c' := countersOf (processRow localeCompare w vs sessionKey n i r) c in
     (successCount c' = S (successCount c) /\ errorCount c' = errorCount c) \/
     (successCount c' = successCount c /\ errorCount c' = S (errorCount c))) /\
  (forall sessionKey n i rest c,
     let c' := countersOf (loop localeCompare w vs sessionKey n i rest) c in
     (successCount c' + errorCount c'
      = successCount c + errorCount c + List.length rest)%nat) /\
  (forall sessionKey records,
     argumentsAccepted vs ->
     reachesLoop localeCompare w vs positionals sessionKey records ->
     exists before successes errors,
       fst (run localeCompare w vs positionals)
       = before ++ [Stdout (nl +:+ "Scrobbling complete: " +:+ pretty successes
                            +:+ " successful, " +:+ pretty errors +:+ " failed" +:+ nl)] /\
       (successes + errors = List.length records)%nat).
Proof.
  split; [| split].
  - intros sessionKey n i r c. cbv zeta. unfold countersOf.
    destruct (processRow_cases localeCompare w vs sessionKey n i r c)
      as [[_ H] | [[_ [_ H]] | [_ [m [_ H]]]]]; rewrite H; cbn; auto.
  - intros sessionKey n i rest c. apply loop_counters.
  - intros sessionKey records Hacc (Ha & csvData & Hrd & Hp).
    rewrite run_main by assumption.
    rewrite (mainBlock_completed _ _ _ _ _ _ _ Ha Hrd Hp). cbv zeta. cbn [fst].
    pose proof (loop_counters localeCompare w vs sessionKey (List.length records)
                  records 0%nat start) as Hsum.
    cbv zeta in Hsum. cbn [successCount errorCount start] in Hsum.
    exists (Stdout ("Authenticating with Last.fm..." +:+ nl)
              :: traceOf (getAuthToken localeCompare w vs) start
              ++ Stdout ("Authentication successful" +:+ nl)
              :: traceOf (readInput w positionals) start
              ++ Stdout ("Found " +:+ pretty (List.length records)
                         +:+ " tracks to scrobble" +:+ nl)
              :: traceOf (loop localeCompare w vs sessionKey (List.length records)
                            0 records) start),
           (successCount
              (countersOf (loop localeCompare w vs sessionKey (List.length records)
                             0 records) start)),
           (errorCount
              (countersOf (loop localeCompare w vs sessionKey (List.length records)
                             0 records) start)).
    split; [| exact Hsum].
    cbn [app]. repeat (rewrite <- app_assoc; cbn [app]). reflexivity.
Qed.

Lemma counters_account_for_every_record_witness :
  exists before successes errors,
    fst (run codeUnitCompare (mockWorld (sessionReply "SESSION") secondFails threeRows)
           (mockValues false false) ["tracks.csv"])
    = before ++ [Stdout (nl +:+ "Scrobbling complete: " +:+ pretty successes
                         +:+ " successful, " +:+ pretty errors +:+ " failed" +:+ nl)] /\
    (successes + errors = List.length threeRows)%nat.
Proof.
  destruct (counters_account_for_every_record codeUnitCompare
              (mockWorld (sessionReply "SESSION") secondFails threeRows)
              (mockValues false false) ["tracks.csv"]) as (_ & _ & Hrun).
  apply (Hrun (JStr "SESSION") threeRows).
  - apply mockValues_accepted.
  - split; [vm_compute; reflexivity |].
    exists "tracks". split; reflexivity.
Defined.

(* ===================================================================== *)
(** * Request bodies                                                      *)
(* ===================================================================== *)

Lemma get_set_same {V} (o : object V) (k : string) (v : V) :
  get (set o k v) k = Some v.
Proof.
  induction o as [| [k' v'] o IH]; cbn [set get].
  - now rewrite String.eqb_refl.
  - destruct (String.eqb k' k) eqn:Hk; cbn [get]; now rewrite Hk.
Qed.

Lemma get_set_other {V} (o : object V) (k k' : string) (v : V) :
  k <> k' -> get (set o k v) k' = get o k'.
Proof.
  intros Hne. induction o as [| [k0 v0] o IH]; cbn [set get].
  - apply String.eqb_neq in Hne. now rewrite Hne.
  - destruct (String.eqb k0 k) eqn:Hk; cbn [get].
    + apply String.eqb_eq in Hk. subst k0.
      apply String.eqb_neq in Hne. now rewrite Hne.
    + now rewrite IH.
Qed.

Lemma set_fresh {V} (o : object V) (k : string) (v : V) :
  get o k = None -> set o k v = o ++ [(k, v)].
Proof.
  induction o as [| [k' v'] o IH]; cbn [set get app]; [reflexivity |].
  destruct (String.eqb k' k); [discriminate |].
  intros Hnone. now rewrite IH.
Qed.

Lemma get_app_fresh {V} (o : object V) (k k' : string) (v : V) :
  k <> k' -> get (o ++ [(k, v)]) k' = get o k'.
Proof.
  intros Hne. induction o as [| [k0 v0] o IH]; cbn [app get].
  - apply String.eqb_neq in Hne. now rewrite Hne.
  - now rewrite IH.
Qed.

Lemma get_map_values {V W} (f : V -> W) (o : object V) (k : string) :
  get (map (fun '(k0, v) => (k0, f v)) o) k = option_map f (get o k).
Proof.
  induction o as [| [k' v'] o IH]; cbn [map get]; [reflexivity |].
  destruct (String.eqb k' k); [reflexivity | exact IH].
Qed.

Lemma requestBody_fresh
    (localeCompare : string -> string -> Z) (vs : values) (params : object jsval) :
  get params "api_sig" = None ->
  get params "format" = None ->
  requestBody localeCompare vs params
  = map (fun '(k, v) => (k, ToString v)) params
    ++ [ ("api_sig", createSignature localeCompare params (js (api_secret vs)));
         ("format", "json") ].
Proof.
  intros Hsig Hformat. unfold requestBody. cbv zeta.
  rewrite (set_fresh params "api_sig") by assumption.
  rewrite set_fresh.
  - rewrite <- app_assoc, map_app. reflexivity.
  - rewrite get_app_fresh by discriminate. assumption.
Qed.

Lemma requestBody_get
    (localeCompare : string -> string -> Z) (vs : values) (params : object jsval) :
  get (requestBody localeCompare vs params) "format" = Some "json" /\
  get (requestBody localeCompare vs params) "api_sig"
  = Some (createSignature localeCompare params (js (api_secret vs))) /\
  (forall name,
     name <> "api_sig" -> name <> "format" ->
     get (requestBody localeCompare vs params) name
     = option_map ToString (get params name)).
Proof.
  unfold requestBody. cbv zeta. rewrite !get_map_values.
  split; [| split].
  - now rewrite get_set_same.
  - rewrite get_set_other by discriminate. now rewrite get_set_same.
  - intros name Hsig Hformat. rewrite get_map_values.
    rewrite !get_set_other by congruence. reflexivity.
Qed.

(** X1.  When the parameters name neither [api_sig] nor [format], the form
    body is the parameters in their order, each value as text, followed by
    [api_sig], the signature of exactly those parameters under the API
    secret, and [format=json]. *)
Theorem requestBody_appends_signature
    (localeCompare : string -> string -> Z) (vs : values) (params : object jsval) :
  get params "api_sig" = None ->
  get params "format" = None ->
  requestBody localeCompare vs params
  = map (fun '(k, v) => (k, ToString v)) params
    ++ [ ("api_sig", createSignature localeCompare params (js (api_secret vs)));
         ("format", "json") ].
Proof. apply requestBody_fresh. Qed.

Lemma requestBody_appends_signature_witness :
  requestBody codeUnitCompare (mockValues false false)
    (scrobbleParams (mockValues false false) (JStr "SESSION") (JStr "Portishead")
       (JStr "Roads") 1699999940)
  = map (fun '(k, v) => (k, ToString v))
      (scrobbleParams (mockValues false false) (JStr "SESSION") (JStr "Portishead")
         (JStr "Roads") 1699999940)
    ++ [ ("api_sig",
          createSignature codeUnitCompare
            (scrobbleParams (mockValues false false) (JStr "SESSION") (JStr "Portishead")
               (JStr "Roads") 1699999940)
            (js (api_secret (mockValues false false))));
         ("format", "json") ].
Proof.
  apply (requestBody_appends_signature codeUnitCompare (mockValues false false)
           (scrobbleParams (mockValues false false) (JStr "SESSION") (JStr "Portishead")
              (JStr "Roads") 1699999940)); reflexivity.
Defined.

(** X2.  Whatever the parameters, the body's [format] is [json] and its
    [api_sig] is the signature of the parameters as given (a parameter of
    either name is overwritten, and still signed); every other field is
    the parameter of that name as text, and absent when there is none. *)
Theorem requestBody_fields
    (localeCompare : string -> string -> Z) (vs : values) (params : object jsval) :
  get (requestBody localeCompare vs params) "format" = Some "json" /\
  get (requestBody localeCompare vs params) "api_sig"
  = Some (createSignature localeCompare params (js (api_secret vs))) /\
  (forall name,
     name <> "api_sig" -> name <> "format" ->
     get (requestBody localeCompare vs params) name
     = option_map ToString (get params name)).
Proof. apply requestBody_get. Qed.

Lemma requestBody_fields_witness :
  get (requestBody codeUnitCompare (mockValues false false)
         [("format", JStr "xml"); ("artist", JStr "Portishead")]) "artist"
  = option_map ToString (get [("format", JStr "xml"); ("artist", JStr "Portishead")] "artist").
Proof.
  destruct (requestBody_fields codeUnitCompare (mockValues false false)
              [("format", JStr "xml"); ("artist", JStr "Portishead")]) as (_ & _ & Hother).
  apply Hother; discriminate.
Defined.

(* ===================================================================== *)
(** * The two remote operations                                           *)
(* ===================================================================== *)

Lemma getAuthToken_unfold
    (localeCompare : string -> string -> Z) (w : world) (vs : values)
    (pw : string) (c : counters) :
  password vs = Some pw ->
  getAuthToken localeCompare w vs c
  = ([Fetch endpoint (requestBody localeCompare vs (authParams vs pw))], c,
     match auth_reply w with
     | Rejected message => Throw message
     | Fulfilled data =>
         if truthy (j_error data)
         then Throw ("Last.fm authentication error: " +:+ ToString (j_message data))
         else match j_session data with
              | Some key => Normal key
              | None => Throw no_session_message
              end
     end).
Proof.
  intros Hpw. unfold getAuthToken. rewrite Hpw.
  unfold bind. rewrite lastFmRequest_run.
  destruct (auth_reply w) as [data | message]; [| reflexivity].
  destruct (truthy (j_error data)); [reflexivity |].
  destruct (j_session data); reflexivity.
Qed.

(** X3.  The one request [getAuthToken] sends carries the API key, the
    method, the user name and [authToken = md5(username + md5(password))],
    then the signature and the format: the password leaves the process
    only inside that digest.  Without a password nothing is sent at all. *)
Theorem getAuthToken_request
    (localeCompare : string -> string -> Z) (w : world) (vs : values) (c : counters) :
  (forall pw,
     password vs = Some pw ->
     traceOf (getAuthToken localeCompare w vs) c
     = [ Fetch endpoint
           [ ("api_key", ToString (js (api_key vs)));
             ("method", "auth.getMobileSession");
             ("username", ToString (js (username vs)));
             ("authToken", md5 (ToString (js (username vs)) +:+ md5 pw));
             ("api_sig",
              createSignature localeCompare (authParams vs pw) (js (api_secret vs)));
             ("format", "json") ] ]) /\
  (password vs = None ->
   traceOf (getAuthToken localeCompare w vs) c = [] /\
   exists message, completionOf (getAuthToken localeCompare w vs) c = Throw message).
Proof.
  split.
  - intros pw Hpw. unfold traceOf.
    rewrite (getAuthToken_unfold _ _ _ pw c Hpw). cbn [fst].
    rewrite requestBody_fresh by reflexivity. reflexivity.
  - intros Hpw. unfold traceOf, completionOf, getAuthToken. rewrite Hpw.
    split; [reflexivity | eexists; reflexivity].
Qed.

Lemma getAuthToken_request_witness :
  traceOf (getAuthToken codeUnitCompare
             (mockWorld (sessionReply "SESSION") secondFails threeRows)
             (mockValues false false)) start
  = [ Fetch endpoint
        [ ("api_key", ToString (js (api_key (mockValues false false))));
          ("method", "auth.getMobileSession");
          ("username", ToString (js (username (mockValues false false))));
          ("authToken",
           md5 (ToString (js (username (mockValues false false))) +:+ md5 "hunter2"));
          ("api_sig",
           createSignature codeUnitCompare (authParams (mockValues false false) "hunter2")
             (js (api_secret (mockValues false false))));
          ("format", "json") ] ].
Proof.
  destruct (getAuthToken_request codeUnitCompare
              (mockWorld (sessionReply "SESSION") secondFails threeRows)
              (mockValues false false) start) as (Hsent & _).
  apply (Hsent "hunter2"). reflexivity.
Defined.

(** X4.  With a password, [getAuthToken] returns a key exactly when the
    response has a falsy [error] and a [session], and the key is that
    session's; a truthy [error] makes it throw
    "Last.fm authentication error: <message>" even when a session key came
    along; a rejected request is rethrown with its message.  It never
    touches the counters and never exits. *)
Theorem getAuthToken_outcomes
    (localeCompare : string -> string -> Z) (w : world) (vs : values)
    (pw : string) (c : counters) :
  password vs = Some pw ->
  (forall key,
     completionOf (getAuthToken localeCompare w vs) c = Normal key <->
     exists data,
       auth_reply w = Fulfilled data /\ truthy (j_error data) = false /\
       j_session data = Some key) /\
  (forall data,
     auth_reply w = Fulfilled data -> truthy (j_error data) = true ->
     completionOf (getAuthToken localeCompare w vs) c
     = Throw ("Last.fm authentication error: " +:+ ToString (j_message data))) /\
  (forall message,
     auth_reply w = Rejected message ->
     completionOf (getAuthToken localeCompare w vs) c = Throw message) /\
  countersOf (getAuthToken localeCompare w vs) c = c /\
  (forall code, completionOf (getAuthToken localeCompare w vs) c <> Exit code).
Proof.
  intros Hpw. unfold completionOf, countersOf.
  rewrite (getAuthToken_unfold _ _ _ pw c Hpw). cbn [fst snd].
  split; [| split; [| split; [| split]]].
  - intros key. split.
    + destruct (auth_reply w) as [data | message]; [| discriminate].
      destruct (truthy (j_error data)) eqn:Herr; [discriminate |].
      destruct (j_session data) as [key' |] eqn:Hs; [| discriminate].
      intros H. injection H as <-. exists data. auto.
    + intros (data & -> & -> & ->). reflexivity.
  - intros data -> ->. reflexivity.
  - intros message ->. reflexivity.
  - reflexivity.
  - intros code. destruct (auth_reply w) as [data | message]; [| discriminate].
    destruct (truthy (j_error data)); [discriminate |].
    destruct (j_session data); discriminate.
Qed.

Lemma getAuthToken_outcomes_witness :
  completionOf (getAuthToken codeUnitCompare
                  (mockWorld (Fulfilled (Json (JNum 4) (JStr "Invalid token")
                                              (Some (JStr "SESSION"))))
                             secondFails threeRows)
                  (mockValues false false)) start
  = Throw ("Last.fm authentication error: " +:+ ToString (JStr "Invalid token")).
Proof.
  destruct (getAuthToken_outcomes codeUnitCompare
              (mockWorld (Fulfilled (Json (JNum 4) (JStr "Invalid token")
                                          (Some (JStr "SESSION"))))
                         secondFails threeRows)
              (mockValues false false) "hunter2" start eq_refl) as (_ & Herr & _).
  apply (Herr (Json (JNum 4) (JStr "Invalid token") (Some (JStr "SESSION"))));
    reflexivity.
Defined.

(** X5.  [scrobbleTrack] sends one request, with the fields [method],
    [api_key], [sk], [artist], [track], [timestamp], the signature and the
    format; it returns the response exactly when the request was answered
    with a falsy [error] (absent, [0] or empty), throws
    "Last.fm scrobbling error: <message>" on a truthy one, and rethrows a
    rejected request; it never touches the counters. *)
Theorem scrobbleTrack_outcomes
    (localeCompare : string -> string -> Z) (vs : values) (reply : settled json)
    (sessionKey artist track : jsval) (timestamp : Z) (c : counters) :
  let call := scrobbleTrack localeCompare vs reply sessionKey artist track timestamp in
  traceOf call c
  = [ Fetch endpoint
        [ ("method", "track.scrobble");
          ("api_key", ToString (js (api_key vs)));
          ("sk", ToString sessionKey);
          ("artist", ToString artist);
          ("track", ToString track);
          ("timestamp", pretty timestamp);
          ("api_sig",
           createSignature localeCompare
             (scrobbleParams vs sessionKey artist track timestamp) (js (api_secret vs)));
          ("format", "json") ] ] /\
  (forall data,
     completionOf call c = Normal data <->
     reply = Fulfilled data /\ truthy (j_error data) = false) /\
  (forall data,
     reply = Fulfilled data -> truthy (j_error data) = true ->
     completionOf call c
     = Throw ("Last.fm scrobbling error: " +:+ ToString (j_message data))) /\
  (forall message, reply = Rejected message -> completionOf call c = Throw message) /\
  countersOf call c = c.
Proof.
  cbv zeta. unfold traceOf, completionOf, countersOf, scrobbleTrack, bind.
  rewrite lastFmRequest_run.
  fold (scrobbleParams vs sessionKey artist track timestamp).
  rewrite requestBody_fresh by reflexivity.
  destruct reply as [data | message].
  - destruct (truthy (j_error data)) eqn:Herr; cbn [fst snd app map].
    + split; [reflexivity |]. split; [| split; [| split]]; try reflexivity.
      * intros d. split; [discriminate |]. intros [H Hd]. injection H as ->. congruence.
      * intros d H _. injection H as <-. reflexivity.
      * discriminate.
    + split; [reflexivity |]. split; [| split; [| split]]; try reflexivity.
      * intros d. split.
        -- intros H. injection H as <-. auto.
        -- intros [H _]. injection H as ->. reflexivity.
      * intros d H Hd. injection H as <-. congruence.
      * discriminate.
  - cbn [fst snd app map].
    split; [reflexivity |]. split; [| split; [| split]]; try reflexivity.
    + intros d. split; [discriminate | intros [H _]; discriminate].
    + discriminate.
    + intros m H. injection H as ->. reflexivity.
Qed.

Lemma scrobbleTrack_outcomes_witness :
  completionOf
    (scrobbleTrack codeUnitCompare (mockValues false false)
       (Fulfilled (Json (JNum 0) JUndefined None))
       (JStr "SESSION") (JStr "Portishead") (JStr "Roads") 1699999940) start
  = Normal (Json (JNum 0) JUndefined None).
Proof.
  destruct (scrobbleTrack_outcomes codeUnitCompare (mockValues false false)
              (Fulfilled (Json (JNum 0) JUndefined None))
              (JStr "SESSION") (JStr "Portishead") (JStr "Roads") 1699999940 start)
    as (_ & Hok & _).
  apply Hok. split; reflexivity.
Defined.

(* ===================================================================== *)
(** * Reading the input                                                   *)
(* ===================================================================== *)

Lemma fold_left_append (chunks : list string) (acc : string) :
  fold_left String.append chunks acc = acc +:+ chunksText chunks.
Proof.
  revert acc. induction chunks as [| chunk chunks IH]; intros acc; cbn [fold_left chunksText].
  - now rewrite append_empty_r.
  - now rewrite IH, append_assoc.
Qed.

Lemma chunksText_app (chunks1 chunks2 : list string) :
  chunksText (chunks1 ++ chunks2) = chunksText chunks1 +:+ chunksText chunks2.
Proof.
  induction chunks1 as [| chunk chunks1 IH]; cbn [app chunksText]; [reflexivity |].
  now rewrite IH, append_assoc.
Qed.

(** X6.  With a file argument [readInput] reads that file and nothing else:
    further arguments are ignored, standard input is not consulted, and a
    failed read is rethrown.  Without one it reads standard input to the
    end and returns the chunks joined in order, so that only the text
    matters, not where the chunks were cut; no chunk at all is the empty
    text.  The counters are left alone. *)
Theorem readInput_sources (w : world) (c : counters) :
  (forall path others,
     readInput w (path :: others) c
     = ([ReadFile path], c,
        match read_file w path with
        | Fulfilled text => Normal text
        | Rejected message => Throw message
        end)) /\
  (forall chunks,
     stdin w = Fulfilled chunks ->
     readInput w [] c = ([ReadStdin], c, Normal (chunksText chunks))) /\
  (forall chunks1 chunks2,
     stdin w = Fulfilled (chunks1 ++ chunks2) ->
     completionOf (readInput w []) c
     = Normal (chunksText chunks1 +:+ chunksText chunks2)) /\
  (forall message,
     stdin w = Rejected message ->
     readInput w [] c = ([ReadStdin], c, Throw message)).
Proof.
  split; [| split; [| split]].
  - intros path others. unfold readInput, bind, emit, await.
    destruct (read_file w path); reflexivity.
  - intros chunks Hin. unfold readInput, bind, emit, await. rewrite Hin.
    unfold ret. cbn [app]. now rewrite fold_left_append.
  - intros chunks1 chunks2 Hin.
    unfold completionOf, readInput, bind, emit, await. rewrite Hin.
    unfold ret. cbn [snd]. now rewrite fold_left_append, chunksText_app.
  - intros message Hin. unfold readInput, bind, emit, await. rewrite Hin.
    reflexivity.
Qed.

Lemma readInput_sources_witness :
  readInput (World (sessionReply "SESSION") secondFails (fun _ => 0)
                   (fun _ => Rejected "ENOENT") (Fulfilled ["Radio"; "head,Cre"; "ep"])
                   (fun _ _ _ => Fulfilled []))
            [] start
  = ([ReadStdin], start, Normal (chunksText ["Radio"; "head,Cre"; "ep"])).
Proof.
  destruct (readInput_sources
              (World (sessionReply "SESSION") secondFails (fun _ => 0)
                     (fun _ => Rejected "ENOENT") (Fulfilled ["Radio"; "head,Cre"; "ep"])
                     (fun _ _ _ => Fulfilled []))
              start) as (_ & Hstdin & _).
  apply Hstdin. reflexivity.
Defined.

(* ===================================================================== *)
(** * The argument checks                                                 *)
(* ===================================================================== *)

(** X7.  For any table of options, the loop over the options reports the
    first required option, in the table's order, whose value is not
    truthy, writes nothing else and exits with code 1; the options after
    it are not examined.  An option given as the empty string counts as
    missing. *)
Theorem checkRequired_first_missing
    (vs : values) (before after : list (string * option_config))
    (param : string) (config : option_config) (c : counters) :
  Forall (fun pc => required (snd pc) = true -> value_truthy vs (fst pc) = true) before ->
  required config = true ->
  value_truthy vs param = false ->
  checkRequired vs (before ++ (param, config) :: after) c
  = ([Stderr ("Error: " +:+ param +:+ " is required" +:+ nl)], c, Exit 1)
  /\ (api_key vs = Some EmptyString -> value_truthy vs "api-key" = false).
Proof.
  intros Hbefore Hreq Hval. split.
  - induction Hbefore as [| [p cfg] before Hp _ IH]; cbn [app checkRequired].
    + rewrite Hreq, Hval. reflexivity.
    + cbn [fst snd] in Hp. destruct (required cfg); cbn [andb]; [| exact IH].
      rewrite (Hp eq_refl). exact IH.
  - intros Hkey. unfold value_truthy. cbn. now rewrite Hkey.
Qed.

Lemma checkRequired_first_missing_witness :
  checkRequired
    (Values (Some "KEY") (Some EmptyString) None (Some "hunter2") "," false false false)
    ([ ("api-key", OptionConfig "string" "k" None "Last.fm API key" true) ]
     ++ ("api-secret", OptionConfig "string" "s" None "Last.fm API secret" true)
     :: [ ("username", OptionConfig "string" "u" None "Last.fm username" true) ])
    start
  = ([Stderr ("Error: " +:+ "api-secret" +:+ " is required" +:+ nl)], start, Exit 1)
  /\ (api_key (Values (Some "KEY") (Some EmptyString) None (Some "hunter2") ","
                      false false false) = Some EmptyString ->
      value_truthy (Values (Some "KEY") (Some EmptyString) None (Some "hunter2") ","
                           false false false) "api-key" = false).
Proof.
  apply (checkRequired_first_missing
           (Values (Some "KEY") (Some EmptyString) None (Some "hunter2") ","
                   false false false)).
  - constructor; [intros _; reflexivity | constructor].
  - reflexivity.
  - reflexivity.
Defined.

(** X8.  A run whose arguments are not accepted does nothing but write one
    text: the help on stdout (exit 0) when [--help] is set, otherwise the
    name of a missing required option on stderr (exit 1).  It sends no
    request and reads no input. *)
Theorem rejected_arguments_do_nothing
    (localeCompare : string -> string -> Z) (w : world) (vs : values)
    (positionals : list string) :
  ~ argumentsAccepted vs ->
  ((help vs = true /\
    run localeCompare w vs positionals = ([Stdout helpText], Exit 0))
   \/
   (help vs = false /\
    exists param config,
      In (param, config) options /\ required config = true /\
      value_truthy vs param = false /\
      run localeCompare w vs positionals
      = ([Stderr ("Error: " +:+ param +:+ " is required" +:+ nl)], Exit 1)))
  /\ List.filter isFetch (fst (run localeCompare w vs positionals)) = []
  /\ List.filter isInputRead (fst (run localeCompare w vs positionals)) = [].
Proof.
  intros Hrej.
  destruct (help vs) eqn:Hhelp.
  - rewrite run_help by assumption. split; [left; auto | split; reflexivity].
  - destruct (checkRequired_cases vs (entries options) start)
      as [[Hall _] | (p & cfg & Hin & Hr & Hv & Hrun)].
    + exfalso. apply Hrej. split; [exact Hhelp |].
      intros param config Hin Hreq. rewrite Forall_forall in Hall.
      apply list_elem_of_In in Hin. exact (Hall _ Hin Hreq).
    + assert (Heq : run localeCompare w vs positionals
                    = ([Stderr ("Error: " +:+ p +:+ " is required" +:+ nl)], Exit 1)).
      { unfold run, script. rewrite Hhelp.
        unfold bind at 1. unfold ret at 1. unfold bind at 1. fold start.
        rewrite Hrun. reflexivity. }
      rewrite Heq. split; [right; split; [reflexivity |]; eauto 8 | split; reflexivity].
Qed.

Lemma rejected_arguments_do_nothing_witness :
  List.filter isFetch
    (fst (run codeUnitCompare (mockWorld (sessionReply "SESSION") secondFails threeRows)
            (Values (Some "KEY") None (Some "alice") (Some "hunter2") "," false false false)
            ["tracks.csv"])) = [].
Proof.
  destruct (rejected_arguments_do_nothing codeUnitCompare
              (mockWorld (sessionReply "SESSION") secondFails threeRows)
              (Values (Some "KEY") None (Some "alice") (Some "hunter2") "," false false false)
              ["tracks.csv"]) as (_ & Hnone & _).
  - intros [_ Hacc].
    specialize (Hacc "api-secret" (OptionConfig "string" "s" None "Last.fm API secret" true)).
    assert (Hin : In ("api-secret", OptionConfig "string" "s" None "Last.fm API secret" true)
                     options) by (cbn; tauto).
    specialize (Hacc Hin eq_refl). discriminate Hacc.
  - exact Hnone.
Defined.

(* ===================================================================== *)
(** * Rows without header                                                 *)
(* ===================================================================== *)

(** X9.  Without header the artist is the first field of the row and the
    track the second, whatever follows them; such a row passes line 233
    exactly when both are non-empty, and a row without fields does not. *)
Theorem positional_resolution (vs : values) :
  header vs = false ->
  (forall artist track others,
     resolveArtist (header vs) (Fields (artist :: track :: others)) = JStr artist /\
     resolveTrack (header vs) (Fields (artist :: track :: others)) = JStr track /\
     (resolves vs (Fields (artist :: track :: others)) = true <->
      artist <> EmptyString /\ track <> EmptyString)) /\
  resolves vs (Fields []) = false.
Proof.
  intros Hhdr. unfold resolves. rewrite Hhdr. split; [| reflexivity].
  intros artist track others. cbn [resolveArtist resolveTrack valueAt nth_error js truthy].
  split; [reflexivity | split; [reflexivity |]].
  rewrite andb_true_iff, !negb_true_iff, !String.eqb_neq. reflexivity.
Qed.

Lemma positional_resolution_witness :
  resolves (mockValues false false)
    (Fields ("Portishead" :: "Roads" :: ["Dummy"; "1994"])) = true <->
  "Portishead" <> EmptyString /\ "Roads" <> EmptyString.
Proof.
  destruct (positional_resolution (mockValues false false) eq_refl) as (Hrow & _).
  apply (Hrow "Portishead" "Roads" ["Dummy"; "1994"]).
Defined.

(* ===================================================================== *)
(** * Invariants of a whole run                                           *)
(* ===================================================================== *)

Lemma filter_none {X} (p : X -> bool) (l : list X) :
  Forall (fun x => p x = false) l -> List.filter p l = [].
Proof.
  induction 1 as [| x l Hx _ IH]; [reflexivity |].
  cbn [List.filter]. now rewrite Hx.
Qed.

Section TraceInvariants.

Variable localeCompare : string -> string -> Z.
Variable w : world.
Variable vs : values.
Variable positionals : list string.
Variable Q : event -> Prop.

Hypothesis Q_lineError : forall i, Q (Stderr (lineError i)).
Hypothesis Q_request :
  forall sk n i r, resolves vs r = true -> Q (rowRequest localeCompare w vs sk n i r).
Hypothesis Q_scrobbled :
  forall r, resolves vs r = true ->
    Q (Stdout (scrobbledLine (resolveArtist (header vs) r) (resolveTrack (header vs) r))).
Hypothesis Q_pause : Q (SetTimeout 200).
Hypothesis Q_scrobbleError :
  forall r message, resolves vs r = true ->
    Q (Stderr (scrobbleErrorLine (resolveArtist (header vs) r)
                 (resolveTrack (header vs) r) message)).

(** What holds of every event a row can cause holds of the loop's trace. *)
Lemma loop_trace_Forall (sk : jsval) (n : nat) (rest : list record) :
  forall i c, Forall Q (traceOf (loop localeCompare w vs sk n i rest) c).
Proof.
  unfold traceOf.
  induction rest as [| r rest IH]; intros i c; [constructor |].
  rewrite loop_cons.
  destruct (processRow_cases localeCompare w vs sk n i r c)
    as [[Hr H] | [[Hr [_ H]] | [Hr [m [_ H]]]]];
    rewrite H;
    match goal with
    | |- context [loop _ _ _ _ _ ?j _ ?c1] =>
        specialize (IH j c1);
        destruct (loop localeCompare w vs sk n j rest c1) as [[t2 c2] res]
    end; cbn [fst] in IH |- *; apply Forall_app; split; auto;
    repeat constructor; auto.
Qed.

Hypothesis Q_help : Q (Stdout helpText).
Hypothesis Q_missing :
  forall param, Q (Stderr ("Error: " +:+ param +:+ " is required" +:+ nl)).
Hypothesis Q_authLine : Q authLine.
Hypothesis Q_authenticatedLine : Q authenticatedLine.
Hypothesis Q_auth : Forall Q (traceOf (getAuthToken localeCompare w vs) start).
Hypothesis Q_read : Forall Q (traceOf (readInput w positionals) start).
Hypothesis Q_found :
  forall n : nat, Q (Stdout ("Found " +:+ pretty n +:+ " tracks to scrobble" +:+ nl)).
Hypothesis Q_summary : forall successes errors, Q (Stdout (summaryLine successes errors)).
Hypothesis Q_failure : forall message, Q (Stderr ("Error: " +:+ message +:+ nl)).

(** What holds of every event the script can cause holds of every run. *)
Lemma run_trace_Forall : Forall Q (fst (run localeCompare w vs positionals)).
Proof.
  destruct (arguments_cases vs) as [Hhelp | [Hacc | (Hhelp & p & cfg & Hin & Hr & Hv)]].
  - rewrite run_help by assumption. repeat constructor. exact Q_help.
  - rewrite run_main by assumption.
    destruct (main_cases localeCompare w vs positionals)
      as [(sk & records & Ha & csvData & Hrd & Hp)
         | (message & [Ha | [(sk & Ha & Hrd) | (sk & csvData & Ha & Hrd & Hp)]])].
    + rewrite (mainBlock_completed _ _ _ _ _ _ _ Ha Hrd Hp). cbv zeta. cbn [fst].
      constructor; [exact Q_authLine |].
      apply Forall_app; split; [exact Q_auth |].
      constructor; [exact Q_authenticatedLine |].
      apply Forall_app; split; [exact Q_read |].
      constructor; [apply Q_found |].
      apply Forall_app; split; [apply loop_trace_Forall |].
      repeat constructor. apply Q_summary.
    + rewrite (mainBlock_auth_failed _ _ _ _ _ Ha). cbn [fst].
      apply Forall_app; split; [| repeat constructor; apply Q_failure].
      constructor; [exact Q_authLine | exact Q_auth].
    + rewrite (mainBlock_read_failed _ _ _ _ _ _ Ha Hrd). cbn [fst].
      apply Forall_app; split; [| repeat constructor; apply Q_failure].
      constructor; [exact Q_authLine |].
      apply Forall_app; split; [exact Q_auth |].
      constructor; [exact Q_authenticatedLine | exact Q_read].
    + rewrite (mainBlock_parse_failed _ _ _ _ _ _ _ Ha Hrd Hp). cbn [fst].
      apply Forall_app; split; [| repeat constructor; apply Q_failure].
      constructor; [exact Q_authLine |].
      apply Forall_app; split; [exact Q_auth |].
      constructor; [exact Q_authenticatedLine | exact Q_read].
  - destruct (run_missing localeCompare w vs positionals p cfg Hhelp Hin Hr Hv)
      as [missing ->].
    repeat constructor. apply Q_missing.
Qed.

End TraceInvariants.

Lemma signedRequest_requestBody
    (localeCompare : string -> string -> Z) (vs : values) (params : object jsval) :
  signedRequest (Fetch endpoint (requestBody localeCompare vs params)).
Proof.
  destruct (requestBody_get localeCompare vs params) as (Hformat & Hsig & _).
  cbn [signedRequest]. split; [reflexivity |]. split; [exact Hformat |].
  eexists. split; [exact Hsig |].
  rewrite createSignature_text. split; [apply md5_length | apply md5_lower].
Qed.

Lemma authTrace_form
    (localeCompare : string -> string -> Z) (w : world) (vs : values) :
  traceOf (getAuthToken localeCompare w vs) start = []
  \/ exists pw,
       password vs = Some pw /\
       traceOf (getAuthToken localeCompare w vs) start
       = [Fetch endpoint (requestBody localeCompare vs (authParams vs pw))].
Proof.
  destruct (password vs) as [pw |] eqn:Hpw.
  - right. exists pw. split; [reflexivity |].
    unfold traceOf. now rewrite (getAuthToken_unfold _ _ _ pw start Hpw).
  - left. unfold traceOf, getAuthToken. now rewrite Hpw.
Qed.

Lemma readTrace_form (w : world) (positionals : list string) :
  traceOf (readInput w positionals) start
  = match positionals with
    | path :: _ => [ReadFile path]
    | [] => [ReadStdin]
    end.
Proof.
  unfold traceOf, readInput, bind, emit, await.
  destruct positionals as [| path others].
  - destruct (stdin w); reflexivity.
  - destruct (read_file w path); reflexivity.
Qed.

(** X10.  In every run, every request goes to the one endpoint with
    [format=json] and carries an [api_sig] of 32 lowercase hexadecimal
    digits: nothing is sent unsigned. *)
Theorem every_request_signed
    (localeCompare : string -> string -> Z) (w : world) (vs : values)
    (positionals : list string) :
  Forall signedRequest (fst (run localeCompare w vs positionals)).
Proof.
  apply run_trace_Forall; try (intros; exact I).
  - intros sk n i r _. apply signedRequest_requestBody.
  - destruct (authTrace_form localeCompare w vs) as [-> | (pw & _ & ->)].
    + constructor.
    + repeat constructor. apply signedRequest_requestBody.
  - rewrite readTrace_form. destruct positionals; repeat constructor.
Qed.


Lemma rowRequests_fields
    (localeCompare : string -> string -> Z) (w : world) (vs : values)
    (sk : jsval) (n : nat) (rest : list record) :
  forall i,
    Forall (fun e =>
              requestField e "method" = Some "track.scrobble" /\
              requestField e "sk" = Some (ToString sk) /\
              requestField e "api_key" = Some (ToString (js (api_key vs))))
           (rowRequests localeCompare w vs sk n i rest).
Proof.
  induction rest as [| r rest IH]; intros i; cbn [rowRequests]; [constructor |].
  apply Forall_app; split; [| apply IH].
  destruct (resolves vs r); repeat constructor.
Qed.

Lemma rowRequests_length
    (localeCompare : string -> string -> Z) (w : world) (vs : values)
    (sk : jsval) (n : nat) (rest : list record) :
  forall i,
    List.length (rowRequests localeCompare w vs sk n i rest)
    = List.length (List.filter (resolves vs) rest).
Proof.
  induction rest as [| r rest IH]; intros i; cbn [rowRequests List.filter]; [reflexivity |].
  rewrite length_app, IH. destruct (resolves vs r); reflexivity.
Qed.

Lemma run_scrobbles
    (localeCompare : string -> string -> Z) (w : world) (vs : values)
    (positionals : list string) (sk : jsval) (records : list record) :
  argumentsAccepted vs ->
  reachesLoop localeCompare w vs positionals sk records ->
  List.filter isScrobble (fst (run localeCompare w vs positionals))
  = rowRequests localeCompare w vs sk (List.length records) 0 records.
Proof.
  intros Hacc (Ha & csvData & Hrd & Hp).
  rewrite run_main by assumption.
  rewrite (mainBlock_completed _ _ _ _ _ _ _ Ha Hrd Hp). cbv zeta. cbn [fst].
  destruct (authTrace_filters localeCompare w vs) as (Hts & _ & _).
  destruct (readInput_run w positionals start) as (_ & _ & Hreads).
  apply reads_filters in Hreads. destruct Hreads as [_ Hrs].
  unfold authLine, authenticatedLine. simplify_filters.
  rewrite Hts, Hrs, loop_scrobbles. cbn [app]. apply app_nil_r.
Qed.

(** X12.  In a run that reaches the loop, the [track.scrobble] requests
    are as many as the records that resolve, and each carries as [sk] the
    session key that [getAuthToken] returned, and the API key of the
    command line. *)
Theorem session_key_in_every_submission
    (localeCompare : string -> string -> Z) (w : world) (vs : values)
    (positionals : list string) (sessionKey : jsval) (records : list record) :
  argumentsAccepted vs ->
  reachesLoop localeCompare w vs positionals sessionKey records ->
  let submissions := List.filter isScrobble (fst (run localeCompare w vs positionals)) in
  List.length submissions = List.length (List.filter (resolves vs) records) /\
  Forall (fun e =>
            requestField e "method" = Some "track.scrobble" /\
            requestField e "sk" = Some (ToString sessionKey) /\
            requestField e "api_key" = Some (ToString (js (api_key vs))))
         submissions.
Proof.
  intros Hacc Hloop. cbv zeta.
  rewrite (run_scrobbles _ _ _ _ _ _ Hacc Hloop).
  split; [apply rowRequests_length | apply rowRequests_fields].
Qed.

Lemma session_key_in_every_submission_witness :
  let submissions :=
    List.filter isScrobble
      (fst (run codeUnitCompare (mockWorld (sessionReply "SESSION") secondFails threeRows)
              (mockValues false false) ["tracks.csv"])) in
  List.length submissions
  = List.length (List.filter (resolves (mockValues false false)) threeRows) /\
  Forall (fun e =>
            requestField e "method" = Some "track.scrobble" /\
            requestField e "sk" = Some (ToString (JStr "SESSION")) /\
            requestField e "api_key"
            = Some (ToString (js (api_key (mockValues false false)))))
         submissions.
Proof.
  apply (session_key_in_every_submission codeUnitCompare
           (mockWorld (sessionReply "SESSION") secondFails threeRows)
           (mockValues false false) ["tracks.csv"] (JStr "SESSION") threeRows).
  - apply mockValues_accepted.
  - split; [vm_compute; reflexivity |].
    exists "tracks". split; reflexivity.
Defined.

Lemma loop_no_reads
    (localeCompare : string -> string -> Z) (w : world) (vs : values)
    (sk : jsval) (n i : nat) (rest : list record) (c : counters) :
  List.filter isInputRead (traceOf (loop localeCompare w vs sk n i rest) c) = [].
Proof.
  apply filter_none.
  apply (loop_trace_Forall localeCompare w vs (fun e => isInputRead e = false));
    intros; reflexivity.
Qed.

Lemma authTrace_no_reads
    (localeCompare : string -> string -> Z) (w : world) (vs : values) :
  List.filter isInputRead (traceOf (getAuthToken localeCompare w vs) start) = [].
Proof.
  destruct (authTrace_form localeCompare w vs) as [-> | (pw & _ & ->)]; reflexivity.
Qed.

(** X13.  A run reads its input at most once, and only after
    authentication has returned a session key; when it does, it reads the
    file named by the first argument, or standard input when there is no
    argument, never both. *)
Theorem input_read_once_after_authentication
    (localeCompare : string -> string -> Z) (w : world) (vs : values)
    (positionals : list string) :
  let reads := List.filter isInputRead (fst (run localeCompare w vs positionals)) in
  (List.length reads <= 1)%nat /\
  (reads <> [] ->
   exists sessionKey,
     completionOf (getAuthToken localeCompare w vs) start = Normal sessionKey) /\
  (forall sessionKey,
     argumentsAccepted vs ->
     completionOf (getAuthToken localeCompare w vs) start = Normal sessionKey ->
     reads = match positionals with
             | path :: _ => [ReadFile path]
             | [] => [ReadStdin]
             end).
Proof.
  cbv zeta.
  assert (Hread : List.filter isInputRead (traceOf (readInput w positionals) start)
                  = match positionals with
                    | path :: _ => [ReadFile path]
                    | [] => [ReadStdin]
                    end).
  { rewrite readTrace_form. destruct positionals; reflexivity. }
  assert (Hlen : (List.length (match positionals with
                               | path :: _ => [ReadFile path]
                               | [] => [ReadStdin]
                               end) <= 1)%nat)
    by (destruct positionals; cbn; lia).
  pose proof (authTrace_no_reads localeCompare w vs) as Hauth.
  destruct (arguments_cases vs) as [Hhelp | [Hacc | (Hhelp & p & cfg & Hin & Hr & Hv)]].
  - rewrite run_help by assumption. cbn.
    split; [lia |]. split; [congruence |]. intros sk [Hh _]. congruence.
  - rewrite run_main by assumption.
    destruct (main_cases localeCompare w vs positionals)
      as [(sk & records & Ha & csvData & Hrd & Hp)
         | (message & [Ha | [(sk & Ha & Hrd) | (sk & csvData & Ha & Hrd & Hp)]])].
    + rewrite (mainBlock_completed _ _ _ _ _ _ _ Ha Hrd Hp). cbv zeta. cbn [fst].
      unfold authLine, authenticatedLine.
      repeat first [ rewrite List.filter_app
                   | progress (cbn [List.filter isInputRead app]) ].
      rewrite Hauth, Hread, loop_no_reads. cbn [app]. rewrite app_nil_r.
      split; [exact Hlen |]. split; [eauto |]. intros; reflexivity.
    + rewrite (mainBlock_auth_failed _ _ _ _ _ Ha). cbn [fst].
      unfold authLine.
      repeat first [ rewrite List.filter_app
                   | progress (cbn [List.filter isInputRead app]) ].
      rewrite Hauth. cbn.
      split; [lia |]. split; [congruence |]. intros sk _ Hsk. congruence.
    + rewrite (mainBlock_read_failed _ _ _ _ _ _ Ha Hrd). cbn [fst].
      unfold authLine, authenticatedLine.
      repeat first [ rewrite List.filter_app
                   | progress (cbn [List.filter isInputRead app]) ].
      rewrite Hauth, Hread. cbn [app]. rewrite app_nil_r.
      split; [exact Hlen |]. split; [eauto |]. intros; reflexivity.
    + rewrite (mainBlock_parse_failed _ _ _ _ _ _ _ Ha Hrd Hp). cbn [fst].
      unfold authLine, authenticatedLine.
      repeat first [ rewrite List.filter_app
                   | progress (cbn [List.filter isInputRead app]) ].
      rewrite Hauth, Hread. cbn [app]. rewrite app_nil_r.
      split; [exact Hlen |]. split; [eauto |]. intros; reflexivity.
  - destruct (run_missing localeCompare w vs positionals p cfg Hhelp Hin Hr Hv)
      as [missing ->].
    cbn. split; [lia |]. split; [congruence |].
    intros sk [_ Hacc]. rewrite (Hacc p cfg Hin Hr) in Hv. discriminate.
Qed.

Lemma input_read_once_after_authentication_witness :
  List.filter isInputRead
    (fst (run codeUnitCompare (mockWorld (sessionReply "SESSION") secondFails threeRows)
            (mockValues false false) ["tracks.csv"; "more.csv"]))
  = [ReadFile "tracks.csv"].
Proof.
  destruct (input_read_once_after_authentication codeUnitCompare
              (mockWorld (sessionReply "SESSION") secondFails threeRows)
              (mockValues false false) ["tracks.csv"; "more.csv"]) as (_ & _ & Hsource).
  apply (Hsource (JStr "SESSION")).
  - apply mockValues_accepted.
  - vm_compute. reflexivity.
Defined.

(** X14.  When the input parses to no record at all, the run still
    authenticates and reads, announces "Found 0 tracks to scrobble",
    submits nothing, reports "0 successful, 0 failed" and completes
    normally. *)
Theorem empty_input_run
    (localeCompare : string -> string -> Z) (w : world) (vs : values)
    (positionals : list string) (sessionKey : jsval) :
  argumentsAccepted vs ->
  reachesLoop localeCompare w vs positionals sessionKey [] ->
  run localeCompare w vs positionals
  = (Stdout ("Authenticating with Last.fm..." +:+ nl)
       :: traceOf (getAuthToken localeCompare w vs) start
       ++ Stdout ("Authentication successful" +:+ nl)
       :: traceOf (readInput w positionals) start
       ++ [ Stdout ("Found 0 tracks to scrobble" +:+ nl);
            Stdout (nl +:+ "Scrobbling complete: 0 successful, 0 failed" +:+ nl) ],
     Normal tt)
  /\ List.filter isScrobble (fst (run localeCompare w vs positionals)) = [].
Proof.
  intros Hacc Hloop. split.
  - destruct Hloop as (Ha & csvData & Hrd & Hp).
    rewrite run_main by assumption.
    rewrite (mainBlock_completed _ _ _ _ _ _ _ Ha Hrd Hp). reflexivity.
  - now rewrite (run_scrobbles _ _ _ _ _ _ Hacc Hloop).
Qed.

Lemma empty_input_run_witness :
  List.filter isScrobble
    (fst (run codeUnitCompare (mockWorld (sessionReply "SESSION") secondFails [])
            (mockValues true false) [])) = [].
Proof.
  destruct (empty_input_run codeUnitCompare
              (mockWorld (sessionReply "SESSION") secondFails [])
              (mockValues true false) [] (JStr "SESSION")) as (_ & Hnone).
  - apply mockValues_accepted.
  - split; [vm_compute; reflexivity |].
    exists EmptyString. split; reflexivity.
  - exact Hnone.
Defined.

(** X15.  [--debug] changes nothing that a run sends, reads or writes: the
    two traces are equal, the error line on stderr included.  It changes
    only the end of a run that fails at top level, which exits with code 1
    without it and ends in the rethrown error with it. *)
Theorem debug_changes_only_the_ending
    (localeCompare : string -> string -> Z) (w : world) (vs : values)
    (positionals : list string) :
  fst (run localeCompare w (withDebug true vs) positionals)
  = fst (run localeCompare w (withDebug false vs) positionals) /\
  snd (run localeCompare w (withDebug false vs) positionals)
  = match snd (run localeCompare w (withDebug true vs) positionals) with
    | Throw _ => Exit 1
    | ending => ending
    end.
Proof.
  unfold run, script.
  change (help (withDebug true vs)) with (help vs).
  change (help (withDebug false vs)) with (help vs).
  change (checkRequired (withDebug true vs) (entries options))
    with (checkRequired vs (entries options)).
  change (checkRequired (withDebug false vs) (entries options))
    with (checkRequired vs (entries options)).
  change (mainBlock localeCompare w (withDebug true vs) positionals)
    with (mainBlock localeCompare w vs positionals).
  change (mainBlock localeCompare w (withDebug false vs) positionals)
    with (mainBlock localeCompare w vs positionals).
  change (debug (withDebug true vs)) with true.
  change (debug (withDebug false vs)) with false.
  destruct (help vs); [split; reflexivity |].
  unfold bind, ret, try_catch. cbv beta iota.
  destruct (checkRequired_cases vs (entries options) (Counters 0 0))
    as [[_ ->] | (param & config & _ & _ & _ & ->)]; [| split; reflexivity].
  destruct (mainBlock localeCompare w vs positionals (Counters 0 0))
    as [[t2 c2] [[] | message | code]]; split; reflexivity.
Qed.




(* ===================================================================== *)
(** * The help text                                                       *)
(* ===================================================================== *)

Lemma length_append (s1 s2 : string) :
  String.length (s1 +:+ s2) = (String.length s1 + String.length s2)%nat.
Proof.
  induction s1 as [| c s1 IH]; [reflexivity |].
  rewrite append_cons. cbn [String.length]. now rewrite IH.
Qed.

Lemma length_spaces (n : nat) :
  String.length (string_of_list_ascii (repeat " "%char n)) = n.
Proof. induction n as [| n IH]; cbn; [reflexivity | now rewrite IH]. Qed.

Lemma padEnd_length (n : nat) (s : string) :
  String.length (padEnd n s) = Nat.max n (String.length s).
Proof. unfold padEnd. rewrite length_append, length_spaces. lia. Qed.

Lemma startsWith_append (p rest : string) : startsWith p (p +:+ rest) = true.
Proof.
  induction p as [| c p IH]; [reflexivity |].
  rewrite append_cons. cbn [startsWith]. now rewrite Ascii.eqb_refl, IH.
Qed.

(** X17.  A line of the help text is a lead, the description and a mark.
    The lead begins with the short option (or four blanks when there is
    none), two dashes and the whole name, and is 7 + max(12, length of the
    name) characters long when the short name has at most one character:
    descriptions start in column 19, and a name longer than 12 is not cut
    but pushes its description right.  The mark is "(required)" for a
    required option, which shows no default, else the default if any. *)
Theorem helpLine_layout (name : string) (opt : option_config) :
  (String.length (short opt) <= 1)%nat ->
  exists lead,
    helpLine name opt
    = lead +:+ description opt
           +:+ (if required opt then " (required)"
                else match default opt with
                     | Some d => " (default: " +:+ dquote +:+ d +:+ dquote +:+ ")"
                     | None => EmptyString
                     end) /\
    String.length lead = (7 + Nat.max 12 (String.length name))%nat /\
    startsWith
      ((if String.eqb (short opt) EmptyString then "    "
        else "-" +:+ short opt +:+ ", ") +:+ "--" +:+ name)
      lead = true.
Proof.
  intros Hshort. unfold helpLine. cbv zeta.
  exists ((if String.eqb (short opt) EmptyString then "    "
           else "-" +:+ short opt +:+ ", ") +:+ "--" +:+ padEnd 12 name +:+ " ").
  split; [| split].
  - rewrite !append_assoc. do 4 f_equal.
    destruct (required opt); [reflexivity |].
    destruct (default opt); [reflexivity | now rewrite append_empty_r].
  - rewrite !length_append, padEnd_length.
    destruct (short opt) as [| c [| c' rest]]; cbn [String.eqb];
      rewrite ?length_append; cbn [String.length] in Hshort |- *; lia.
  - unfold padEnd.
    match goal with
    | |- startsWith ?p ?l = true =>
        replace l
          with (p +:+ string_of_list_ascii (repeat " "%char (12 - String.length name))
                  +:+ " ")
    end.
    + apply startsWith_append.
    + now rewrite !append_assoc.
Qed.

Lemma helpLine_layout_witness :
  exists lead,
    helpLine "delimiter" (OptionConfig "string" "d" (Some ",") "CSV delimiter" false)
    = lead +:+ "CSV delimiter"
           +:+ (" (default: " +:+ dquote +:+ "," +:+ dquote +:+ ")") /\
    String.length lead = (7 + Nat.max 12 (String.length "delimiter"))%nat /\
    startsWith ("-d, " +:+ "--" +:+ "delimiter") lead = true.
Proof.
  apply (helpLine_layout "delimiter"
           (OptionConfig "string" "d" (Some ",") "CSV delimiter" false)).
  cbn. lia.
Defined.
